(** * go-qrcode, writer/standard: the rendering engine and its helpers

    A shallow embedding of the parts of [writer/standard] and [imgkit]
    that the specification makes claims about, with the claims stated
    and proved (or refuted) over the embedding.

    Conventions.
    - Go's [int] is modelled by [Z]; image sizes are far from the 64-bit
      range, so the wrap-around of [int] is not written out.  [uint8] values
      are integers in [0, 256); the conversion [uint8(v)] is [v mod 256].
    - A run-time panic (index out of range, [make] with a negative length)
      is the result [None]; so is a loop that runs out of fuel.  Every
      theorem that says what a function returns proves that it returns
      [Some] result.
    - Go's [for init; cond; post] loops are written with the combinator
      [forZ]; [continue] and [break] are the two constructors of [ctl].
    - A [float64] is modelled by the rational ([Q]) that it stands for, and
      its arithmetic by exact arithmetic.  The cell sizes and coordinates
      of a QR image are small integers and their halves and thirds, far
      from where [float64] rounding would change a truncation or a printed
      digit.  [math.Cos] and [math.Sin] are not modelled: the gradient
      code is stated for any two functions in their place. *)

From Stdlib Require Import QArith Qround String Ascii DecimalString.
From Stdlib Require Import ZArith List Bool Lia Permutation.
Import ListNotations.
Open Scope Z_scope.

(** ** Go control flow *)

Notation "'do' x <- c1 ; c2" :=
  (match c1 with Some x => c2 | None => None end)
    (at level 10, x pattern, c1 at level 100, c2 at level 200).

(** What one loop iteration asks for: go on with the next iteration
    ([continue], or the end of the body) or leave the loop ([break]). *)
Inductive ctl (S : Type) : Type :=
| Continue (s : S)
| Break (s : S).
Arguments Continue {S} s.
Arguments Break {S} s.

(** [for i := lo; cond(i); i += step { body }] over a loop state [S]. *)
Fixpoint forZ {S : Type} (fuel : nat) (i : Z) (cond : Z -> bool) (step : Z)
  (body : Z -> S -> option (ctl S)) (s : S) : option S :=
  match fuel with
  | O => None
  | Datatypes.S k =>
      if cond i then
        match body i s with
        | Some (Continue s') => forZ k (i + step) cond step body s'
        | Some (Break s') => Some s'
        | None => None
        end
      else Some s
  end.

(** Fuel that is enough for a loop that counts from [lo] up to [hi]. *)
Definition loopFuel (lo hi : Z) : nat := Datatypes.S (Z.to_nat (hi - lo)).

(** ** Go slices of booleans *)

(** [make([]bool, n)]: panics when [n] is negative. *)
Definition make_bools (n : Z) : option (list bool) :=
  if n <? 0 then None else Some (repeat false (Z.to_nat n)).

(** [s[i]]: panics when [i] is out of range. *)
Definition index {A : Type} (s : list A) (i : Z) : option A :=
  if i <? 0 then None else nth_error s (Z.to_nat i).

Fixpoint set_nth {A : Type} (s : list A) (n : nat) (v : A) : option (list A) :=
  match s, n with
  | [], _ => None
  | _ :: t, O => Some (v :: t)
  | a :: t, Datatypes.S n' =>
      match set_nth t n' v with
      | Some t' => Some (a :: t')
      | None => None
      end
  end.

(** [s[i] = v]: panics when [i] is out of range. *)
Definition assign {A : Type} (s : list A) (i : Z) (v : A) : option (list A) :=
  if i <? 0 then None else set_nth s (Z.to_nat i) v.

(** ** image.Point, image.Rectangle, colors and images *)

Record Point : Type := mkPoint { X : Z; Y : Z }.
Record Rectangle : Type := mkRectangle { Min : Point; Max : Point }.

Definition Dx (b : Rectangle) : Z := X (Max b) - X (Min b).
Definition Dy (b : Rectangle) : Z := Y (Max b) - Y (Min b).

(** [Point.In]: [Min] is inclusive, [Max] exclusive. *)
Definition PointIn (x y : Z) (b : Rectangle) : bool :=
  (X (Min b) <=? x) && (x <? X (Max b)) && (Y (Min b) <=? y) && (y <? Y (Max b)).

(** The four 16-bit channels that [color.Color.RGBA()] returns. *)
Record Color16 : Type := mkColor16 { c16_r : Z; c16_g : Z; c16_b : Z; c16_a : Z }.

(** A pixel as the decomposition code handles it: four [uint8] channels
    [(r, g, b, a)]. *)
Definition Pixel : Type := (Z * Z * Z * Z)%type.

Definition uint8 (v : Z) : Z := v mod 256.

(** [image.Gray] (here [image_Gray]): the bounds [Rect] and one [uint8],
    the luminance [Y], for each pixel.  The pixel store ([Pix] and [Stride] in the standard
    library) is a function of the coordinates; only the pixels inside
    [Rect] are ever read or written. *)
Record image_Gray : Type := mkGray { GrayY : Z -> Z -> Z; GrayRect : Rectangle }.

(** An [image.Image] is an [*image.RGBA] (the type the greedy algorithm
    has a fast path for: a byte slice [Pix], a row [Stride] and the bounds
    [Rect]), an [*image.Gray], or any other implementation, known by its
    [At] method composed with [RGBA()] and by its bounds. *)
Inductive Image : Type :=
| RGBAImage (Pix : list Z) (Stride : Z) (Rect : Rectangle)
| GrayImage (g : image_Gray)
| OtherImage (at16 : Z -> Z -> Color16) (bounds : Rectangle).

Definition Bounds (img : Image) : Rectangle :=
  match img with
  | RGBAImage _ _ Rect => Rect
  | GrayImage g => GrayRect g
  | OtherImage _ bounds => bounds
  end.

(** [Pix[i]] as the methods of the standard library read it.  The
    library keeps [Pix] long enough for the offset of every pixel inside
    [Rect] (see [wellFormedImage]), so its reads are in range; [pix] gives
    0 at an index past the end.  The code of this package that indexes
    [Pix] itself is modelled with [index], which panics. *)
Definition pix (Pix : list Z) (i : Z) : Z := nth (Z.to_nat i) Pix 0.

(** [Gray.GrayAt(x, y).Y]: zero outside [Rect]. *)
Definition GrayAt (g : image_Gray) (x y : Z) : Z :=
  if PointIn x y (GrayRect g) then GrayY g x y else 0.

(** [Gray.SetGray(x, y, color.Gray{v})]: nothing happens outside [Rect]. *)
Definition SetGray (g : image_Gray) (x y v : Z) : image_Gray :=
  if PointIn x y (GrayRect g) then
    mkGray (fun x' y' => if (x' =? x) && (y' =? y) then v else GrayY g x' y')
           (GrayRect g)
  else g.

(** [image.NewGray(r)]: all pixels are zero. *)
Definition NewGray (r : Rectangle) : image_Gray := mkGray (fun _ _ => 0) r.

(** A stored byte [v] as a 16-bit channel: [v | v << 8]. *)
Definition widen (v : Z) : Z := Z.lor v (Z.shiftl v 8).

(** [img.At(x, y).RGBA()].  For an [*image.RGBA] this is the standard
    library's [RGBA.At] followed by [color.RGBA.RGBA]: the zero color
    outside [Rect], each stored byte widened inside.  For an
    [*image.Gray] it is [Gray.At] followed by [color.Gray.RGBA]: the
    luminance in the three color channels, and an opaque alpha. *)
Definition At16 (img : Image) (x y : Z) : Color16 :=
  match img with
  | RGBAImage Pix Stride Rect =>
      if PointIn x y Rect then
        let i := (y - Y (Min Rect)) * Stride + (x - X (Min Rect)) * 4 in
        mkColor16 (widen (pix Pix i)) (widen (pix Pix (i + 1)))
                  (widen (pix Pix (i + 2))) (widen (pix Pix (i + 3)))
      else mkColor16 0 0 0 0
  | GrayImage g =>
      let v := widen (GrayAt g x y) in mkColor16 v v v 65535
  | OtherImage at16 _ => at16 x y
  end.

(** [r, g, b, a := img.At(x, y).RGBA()] followed by
    [uint8(r>>8), uint8(g>>8), uint8(b>>8), uint8(a>>8)]. *)
Definition At8 (img : Image) (x y : Z) : Pixel :=
  let c := At16 img x y in
  (uint8 (Z.shiftr (c16_r c) 8), uint8 (Z.shiftr (c16_g c) 8),
   uint8 (Z.shiftr (c16_b c) 8), uint8 (Z.shiftr (c16_a c) 8)).

(** [a == 0 || (r == 255 && g == 255 && b == 255)]: the pixels that the
    decomposition leaves out. *)
Definition isBackground (p : Pixel) : bool :=
  let '(r, g, b, a) := p in
  (a =? 0) || ((r =? 255) && (g =? 255) && (b =? 255)).

(** [nr != r || ng != g || nb != b || na != a] *)
Definition differs (n p : Pixel) : bool :=
  let '(nr, ng, nb, na) := n in
  let '(r, g, b, a) := p in
  negb (nr =? r) || negb (ng =? g) || negb (nb =? b) || negb (na =? a).

(** ** rectInfo *)

(** The struct [rectInfo]; its fields [x, y, width, height, r, g, b, a]
    carry the prefix [rect_]. *)
Record rectInfo : Type := mkRectInfo {
  rect_x : Z; rect_y : Z; rect_width : Z; rect_height : Z;
  rect_r : Z; rect_g : Z; rect_b : Z; rect_a : Z
}.

Definition rectOf (x y w h : Z) (p : Pixel) : rectInfo :=
  let '(r, g, b, a) := p in mkRectInfo x y w h r g b a.

Definition rectColor (r : rectInfo) : Pixel :=
  (rect_r r, rect_g r, rect_b r, rect_a r).

(** The linear index of the pixel [(x, y)] in the [visited] slice (the
    helper [getIndex]; the greedy algorithm writes the expression out). *)
Definition getIndex (bounds : Rectangle) (x y : Z) : Z :=
  (y - Y (Min bounds)) * Dx bounds + (x - X (Min bounds)).

(** ** optimizeRectangles: greedy meshing *)

Module Greedy.
Section Greedy.
Variable img : Image.
Variable bounds : Rectangle.

Let width := Dx bounds.
Let height := Dy bounds.

(** The helper [getPixel]: the fast path reads [Pix] directly when the
    image is an [*image.RGBA], and panics when an index is out of range. *)
Definition getPixel (x y : Z) : option Pixel :=
  match img with
  | RGBAImage Pix Stride Rect =>
      let offset := (y - Y (Min Rect)) * Stride + (x - X (Min Rect)) * 4 in
      do r <- index Pix offset;
      do g <- index Pix (offset + 1);
      do b <- index Pix (offset + 2);
      do a <- index Pix (offset + 3);
      Some (r, g, b, a)
  | _ =>
      let c := At16 img x y in
      Some (uint8 (Z.shiftr (c16_r c) 8), uint8 (Z.shiftr (c16_g c) 8),
            uint8 (Z.shiftr (c16_b c) 8), uint8 (Z.shiftr (c16_a c) 8))
  end.

(** The helper [isVisited]. *)
Definition isVisited (visited : list bool) (x y : Z) : option bool :=
  index visited ((y - Y (Min bounds)) * width + (x - X (Min bounds))).

(** The helper [markVisited]. *)
Definition markVisited (visited : list bool) (x y w h : Z) : option (list bool) :=
  let startY := y - Y (Min bounds) in
  let startX := x - X (Min bounds) in
  forZ (loopFuel 0 h) 0 (fun dy => dy <? h) 1
    (fun dy visited =>
       let offset := (startY + dy) * width in
       do visited' <-
         forZ (loopFuel 0 w) 0 (fun dx => dx <? w) 1
           (fun dx visited =>
              do visited' <- assign visited (offset + startX + dx) true;
              Some (Continue visited'))
           visited;
       Some (Continue visited'))
    visited.

(** 1. Greedy horizontal expansion:
    [for x+w < bounds.Max.X { ...; w++ }], started with [w = 1]. *)
Fixpoint expandRight (fuel : nat) (visited : list bool) (x y : Z) (p : Pixel)
  (w : Z) : option Z :=
  match fuel with
  | O => None
  | Datatypes.S k =>
      if x + w <? X (Max bounds) then
        do v <- isVisited visited (x + w) y;
        if v then Some w
        else
          do n <- getPixel (x + w) y;
          if differs n p then Some w
          else expandRight k visited x y p (w + 1)
      else Some w
  end.

(** The inner loop of the vertical expansion: the value of [matchRow]
    after [for k := 0; k < w; k++ { ... }]. *)
Definition matchRow (visited : list bool) (x y : Z) (p : Pixel) (w h : Z)
  : option bool :=
  forZ (loopFuel 0 w) 0 (fun k => k <? w) 1
    (fun k matchRow =>
       do v <- isVisited visited (x + k) (y + h);
       if v then Some (Break false)
       else
         do n <- getPixel (x + k) (y + h);
         if differs n p then Some (Break false)
         else Some (Continue matchRow))
    true.

(** 2. Greedy vertical expansion:
    [for y+h < bounds.Max.Y { ...; h++ }], started with [h = 1]. *)
Fixpoint expandDown (fuel : nat) (visited : list bool) (x y : Z) (p : Pixel)
  (w h : Z) : option Z :=
  match fuel with
  | O => None
  | Datatypes.S k =>
      if y + h <? Y (Max bounds) then
        do m <- matchRow visited x y p w h;
        if negb m then Some h
        else expandDown k visited x y p w (h + 1)
      else Some h
  end.

(** The body of the two scanning loops at the pixel [(x, y)]. *)
Definition scanPixel (x y : Z) (st : list bool * list rectInfo)
  : option (ctl (list bool * list rectInfo)) :=
  let '(visited, rects) := st in
  do v <- isVisited visited x y;
  if v then Some (Continue st)
  else
    do p <- getPixel x y;
    if isBackground p then Some (Continue st)
    else
      do w <- expandRight (loopFuel x (X (Max bounds))) visited x y p 1;
      do h <- expandDown (loopFuel y (Y (Max bounds))) visited x y p w 1;
      let rects' := rects ++ [rectOf x y w h p] in
      do visited' <- markVisited visited x y w h;
      Some (Continue (visited', rects')).

Definition optimizeRectangles : option (list rectInfo) :=
  do visited <- make_bools (width * height);
  do st <-
    forZ (loopFuel (Y (Min bounds)) (Y (Max bounds))) (Y (Min bounds))
      (fun y => y <? Y (Max bounds)) 1
      (fun y st =>
         do st' <-
           forZ (loopFuel (X (Min bounds)) (X (Max bounds))) (X (Min bounds))
             (fun x => x <? X (Max bounds)) 1
             (fun x st => scanPixel x y st) st;
         Some (Continue st'))
      (visited, []);
  Some (snd st).
End Greedy.
End Greedy.


(** ** oldOptimizeRectangles: the four-phase algorithm *)

(** [sort.Slice] promises a sorted permutation and no more (it is not
    stable), so the four-phase algorithm takes the sorting function as a
    parameter.  [insertionSort] is one such function. *)
Fixpoint insertSorted (less : rectInfo -> rectInfo -> bool) (a : rectInfo)
  (l : list rectInfo) : list rectInfo :=
  match l with
  | [] => [a]
  | b :: t => if less b a then b :: insertSorted less a t else a :: b :: t
  end.

Definition insertionSort (less : rectInfo -> rectInfo -> bool)
  (l : list rectInfo) : list rectInfo :=
  fold_right (insertSorted less) [] l.

Module FourPhase.
Section FourPhase.
Variable sortSlice : (rectInfo -> rectInfo -> bool) -> list rectInfo -> list rectInfo.
Variable img : Image.
Variable bounds : Rectangle.

Let width := Dx bounds.
Let height := Dy bounds.

(** PHASE 1.  The value of [isUniform] after the check of the 3x3 grid
    at [(x, y)] against the color [p] of its first pixel. *)
Definition isUniform (visited : list bool) (x y : Z) (p : Pixel) : option bool :=
  forZ (loopFuel 0 3) 0 (fun dy => dy <? 3) 1
    (fun dy isUniform =>
       do isUniform' <-
         forZ (loopFuel 0 3) 0 (fun dx => dx <? 3) 1
           (fun dx isUniform =>
              do v <- index visited (getIndex bounds (x + dx) (y + dy));
              if v then Some (Break false)
              else if differs (At8 img (x + dx) (y + dy)) p then Some (Break false)
              else Some (Continue isUniform))
           isUniform;
       if negb isUniform' then Some (Break isUniform')
       else Some (Continue isUniform'))
    true.

(** [visited[getIndex(x+dx, y+dy)] = true] for the nine pixels. *)
Definition markBlock (visited : list bool) (x y : Z) : option (list bool) :=
  forZ (loopFuel 0 3) 0 (fun dy => dy <? 3) 1
    (fun dy visited =>
       do visited' <-
         forZ (loopFuel 0 3) 0 (fun dx => dx <? 3) 1
           (fun dx visited =>
              do visited' <- assign visited (getIndex bounds (x + dx) (y + dy)) true;
              Some (Continue visited'))
           visited;
       Some (Continue visited'))
    visited.

(** The body of the two loops of phase 1 at the block origin [(x, y)]. *)
Definition scanBlock (x y : Z) (st : list bool * list rectInfo)
  : option (ctl (list bool * list rectInfo)) :=
  let '(visited, rects) := st in
  let p := At8 img x y in
  if isBackground p then Some (Continue st)
  else
    do u <- isUniform visited x y p;
    if u then
      let rects' := rects ++ [rectOf x y 3 3 p] in
      do visited' <- markBlock visited x y;
      Some (Continue (visited', rects'))
    else Some (Continue st).

Definition phase1 (st : list bool * list rectInfo)
  : option (list bool * list rectInfo) :=
  forZ (loopFuel (Y (Min bounds)) (Y (Max bounds))) (Y (Min bounds))
    (fun y => y <=? Y (Max bounds) - 3) 3
    (fun y st =>
       do st' <-
         forZ (loopFuel (X (Min bounds)) (X (Max bounds))) (X (Min bounds))
           (fun x => x <=? X (Max bounds) - 3) 3
           (fun x st => scanBlock x y st) st;
       Some (Continue st'))
    st.

(** PHASE 2.  The innermost loop, [for x < bounds.Max.X { ...; x++ }]:
    the end of the run of the color [p] in row [y]. *)
Fixpoint runEnd (fuel : nat) (visited : list bool) (y : Z) (p : Pixel) (x : Z)
  : option Z :=
  match fuel with
  | O => None
  | Datatypes.S k =>
      if x <? X (Max bounds) then
        do v <- index visited (getIndex bounds x y);
        if v then Some x
        else if differs (At8 img x y) p then Some x
        else runEnd k visited y p (x + 1)
      else Some x
  end.

(** The loop [for x < bounds.Max.X { ... }] over one row, whose body
    moves [x] by one pixel or by one run. *)
Fixpoint scanRow (fuel : nat) (visited : list bool) (y x : Z)
  (rects : list rectInfo) : option (list rectInfo) :=
  match fuel with
  | O => None
  | Datatypes.S k =>
      if x <? X (Max bounds) then
        do v <- index visited (getIndex bounds x y);
        if v then scanRow k visited y (x + 1) rects
        else
          let p := At8 img x y in
          if isBackground p then scanRow k visited y (x + 1) rects
          else
            let startX := x in
            do x' <- runEnd (loopFuel x (X (Max bounds))) visited y p (x + 1);
            scanRow k visited y x' (rects ++ [rectOf startX y (x' - startX) 1 p])
      else Some rects
  end.

Definition phase2 (visited : list bool) (rects : list rectInfo)
  : option (list rectInfo) :=
  forZ (loopFuel (Y (Min bounds)) (Y (Max bounds))) (Y (Min bounds))
    (fun y => y <? Y (Max bounds)) 1
    (fun y rects =>
       do rects' <-
         scanRow (loopFuel (X (Min bounds)) (X (Max bounds))) visited y
           (X (Min bounds)) rects;
       Some (Continue rects'))
    rects.

(** PHASE 3.  The order "by Y first, then X" and the horizontal merge of
    [next] into [curr]. *)
Definition lessYX (a b : rectInfo) : bool :=
  if negb (rect_y a =? rect_y b) then rect_y a <? rect_y b
  else rect_x a <? rect_x b.

Definition sameColor (a b : rectInfo) : bool :=
  (rect_r a =? rect_r b) && (rect_g a =? rect_g b) &&
  (rect_b a =? rect_b b) && (rect_a a =? rect_a b).

Definition mergeHorzStep (st : list rectInfo * rectInfo) (next : rectInfo)
  : list rectInfo * rectInfo :=
  let '(mergedHorz, curr) := st in
  if (rect_y curr =? rect_y next) &&
     (rect_height curr =? rect_height next) &&
     (rect_x curr + rect_width curr =? rect_x next) &&
     sameColor curr next
  then
    (mergedHorz,
     mkRectInfo (rect_x curr) (rect_y curr) (rect_width curr + rect_width next)
       (rect_height curr) (rect_r curr) (rect_g curr) (rect_b curr) (rect_a curr))
  else (mergedHorz ++ [curr], next).

(** PHASE 4.  The order "by X first, then Y" and the vertical merge. *)
Definition lessXY (a b : rectInfo) : bool :=
  if negb (rect_x a =? rect_x b) then rect_x a <? rect_x b
  else rect_y a <? rect_y b.

Definition mergeVertStep (st : list rectInfo * rectInfo) (next : rectInfo)
  : list rectInfo * rectInfo :=
  let '(finalRects, curr) := st in
  if (rect_x curr =? rect_x next) &&
     (rect_width curr =? rect_width next) &&
     (rect_y curr + rect_height curr =? rect_y next) &&
     sameColor curr next
  then
    (finalRects,
     mkRectInfo (rect_x curr) (rect_y curr) (rect_width curr)
       (rect_height curr + rect_height next)
       (rect_r curr) (rect_g curr) (rect_b curr) (rect_a curr))
  else (finalRects ++ [curr], next).

(** [curr := s[0]; for i := 1; i < len(s); i++ { step }; append curr].
    Both phases call it on a slice that is not empty. *)
Definition mergeLoop (step : list rectInfo * rectInfo -> rectInfo -> list rectInfo * rectInfo)
  (s : list rectInfo) : option (list rectInfo) :=
  match s with
  | [] => None
  | first :: rest =>
      let '(merged, curr) := fold_left step rest ([], first) in
      Some (merged ++ [curr])
  end.

Definition oldOptimizeRectangles : option (list rectInfo) :=
  do visited <- make_bools (width * height);
  do st <- phase1 (visited, []);
  let '(visited, rects) := st in
  do rects <- phase2 visited rects;
  if (Z.of_nat (length rects) =? 0) then Some rects
  else
    let rects := sortSlice lessYX rects in
    do mergedHorz <- mergeLoop mergeHorzStep rects;
    let mergedHorz := sortSlice lessXY mergedHorz in
    if (0 <? Z.of_nat (length mergedHorz)) then mergeLoop mergeVertStep mergedHorz
    else Some [].
End FourPhase.
End FourPhase.

(** ** Formatting *)

Open Scope string_scope.

(** The double quote character, for the attribute values of the markup. *)
Definition dq : string := String (Ascii.ascii_of_nat 34) EmptyString.

(** The builtin [append(s, v)] with one element. *)
Definition appendTo {A : Type} (s : list A) (v : A) : list A := (s ++ [v])%list.

(** [strings.Join]. *)
Definition Join (elems : list string) (sep : string) : string :=
  String.concat sep elems.

(** The verb [%d] on a number that is not negative. *)
Definition fmt_d (n : Z) : string := NilZero.string_of_uint (N.to_uint (Z.to_N n)).

Definition hexDigit (n : Z) : string :=
  String.substring (Z.to_nat n) 1 "0123456789abcdef".

(** The verb [%02x] on a [uint8]. *)
Definition fmt_02x (v : Z) : string := hexDigit (v / 16) ++ hexDigit (v mod 16).

(** The verb [%.2f]: the value rounded to two decimals (a tie goes to the
    even digit), with the sign of the value. *)
Definition fmt_2f (q : Q) : string :=
  let a := (Z.abs (Qnum q) * 100)%Z in
  let d := Zpos (Qden q) in
  let k := (a / d)%Z in
  let r := (a mod d)%Z in
  let n := (match (2 * r ?= d)%Z with
            | Lt => k
            | Gt => k + 1
            | Eq => if Z.even k then k else k + 1
            end)%Z in
  let frac := (n mod 100)%Z in
  (if (Qnum q <? 0)%Z then "-" else "") ++
  fmt_d (n / 100) ++ "." ++ fmt_d (frac / 10) ++ fmt_d (frac mod 10).

(** [color.Color]: an interface value, [nil] or a color known by the four
    channels of its [RGBA()] method. *)
Definition Color : Type := option Color16.

(** [color.RGBAModel.Convert(c)]: the four channels as [uint8]. *)
Definition RGBAModel_Convert (c : Color16) : Pixel :=
  (uint8 (Z.shiftr (c16_r c) 8), uint8 (Z.shiftr (c16_g c) 8),
   uint8 (Z.shiftr (c16_b c) 8), uint8 (Z.shiftr (c16_a c) 8)).

(** [colorToHex] (a method of the recorder in one revision of the file,
    a function in the other, with the same body). *)
Definition colorToHex (c : Color) : string :=
  match c with
  | None => ""
  | Some c =>
      let '(R, G, B, _) := RGBAModel_Convert c in
      "#" ++ fmt_02x R ++ fmt_02x G ++ fmt_02x B
  end.

(** ** GraphicsContext: the drawing command interface *)

(** A call of a method of the interface [GraphicsContext].  A shape's
    [Draw] is known by the calls it makes, in order. *)
Module GraphicsContext.
Inductive Call : Type :=
| MoveTo (x y : Q)
| LineTo (x y : Q)
| QuadraticTo (cx cy x y : Q)
| ClosePath
| DrawCircle (cx cy radius : Q)
| DrawRectangle (x y w h : Q)
| SetColor (c : Color)
| Fill
| SetDash (dashes : list Q)
| SetLineWidth (lineWidth : Q)
| SetLineCap (lineCap : Z)
| SetLineCapSquare
| Stroke
| SetFillRuleEvenOdd
| NewSubPath
| SetFillRuleWinding.
End GraphicsContext.

(** ** svgPathRecorder *)

Module SvgPathRecorder.

Record svgPathRecorder : Type := mkRecorder {
  pathElements : list string;
  currentCommands : list string;
  currentX : Q;
  currentY : Q;
  strokeDash : list Q;
  strokeWidth : Q;
  strokeLineCap : string;
  fillRule : string;
  currentColor : Color;
  hasGradient : bool
}.

(** Field updates, one per field that a method assigns. *)
Definition set_pathElements (r : svgPathRecorder) (v : list string) :=
  mkRecorder v (currentCommands r) (currentX r) (currentY r) (strokeDash r)
    (strokeWidth r) (strokeLineCap r) (fillRule r) (currentColor r) (hasGradient r).
Definition set_currentCommands (r : svgPathRecorder) (v : list string) :=
  mkRecorder (pathElements r) v (currentX r) (currentY r) (strokeDash r)
    (strokeWidth r) (strokeLineCap r) (fillRule r) (currentColor r) (hasGradient r).
Definition set_currentXY (r : svgPathRecorder) (x y : Q) :=
  mkRecorder (pathElements r) (currentCommands r) x y (strokeDash r)
    (strokeWidth r) (strokeLineCap r) (fillRule r) (currentColor r) (hasGradient r).
Definition set_strokeDash (r : svgPathRecorder) (v : list Q) :=
  mkRecorder (pathElements r) (currentCommands r) (currentX r) (currentY r) v
    (strokeWidth r) (strokeLineCap r) (fillRule r) (currentColor r) (hasGradient r).
Definition set_strokeWidth (r : svgPathRecorder) (v : Q) :=
  mkRecorder (pathElements r) (currentCommands r) (currentX r) (currentY r)
    (strokeDash r) v (strokeLineCap r) (fillRule r) (currentColor r) (hasGradient r).
Definition set_strokeLineCap (r : svgPathRecorder) (v : string) :=
  mkRecorder (pathElements r) (currentCommands r) (currentX r) (currentY r)
    (strokeDash r) (strokeWidth r) v (fillRule r) (currentColor r) (hasGradient r).
Definition set_fillRule (r : svgPathRecorder) (v : string) :=
  mkRecorder (pathElements r) (currentCommands r) (currentX r) (currentY r)
    (strokeDash r) (strokeWidth r) (strokeLineCap r) v (currentColor r) (hasGradient r).
Definition set_currentColor (r : svgPathRecorder) (v : Color) :=
  mkRecorder (pathElements r) (currentCommands r) (currentX r) (currentY r)
    (strokeDash r) (strokeWidth r) (strokeLineCap r) (fillRule r) v (hasGradient r).

Definition NewSVGPathRecorder (hasGradient : bool) : svgPathRecorder :=
  mkRecorder nil nil 0 0 nil 0 "" "" None hasGradient.

Definition MoveTo (x y : Q) (r : svgPathRecorder) : svgPathRecorder :=
  let r := set_currentCommands r
    (appendTo (currentCommands r) ("M" ++ fmt_2f x ++ " " ++ fmt_2f y)) in
  set_currentXY r x y.

Definition LineTo (x y : Q) (r : svgPathRecorder) : svgPathRecorder :=
  let r := set_currentCommands r
    (appendTo (currentCommands r) ("L" ++ fmt_2f x ++ " " ++ fmt_2f y)) in
  set_currentXY r x y.

Definition QuadraticTo (cx cy x y : Q) (r : svgPathRecorder) : svgPathRecorder :=
  let r := set_currentCommands r
    (appendTo (currentCommands r)
     ("Q" ++ fmt_2f cx ++ " " ++ fmt_2f cy ++ " " ++ fmt_2f x ++ " " ++ fmt_2f y)) in
  set_currentXY r x y.

Definition ClosePath (r : svgPathRecorder) : svgPathRecorder :=
  set_currentCommands r (appendTo (currentCommands r) ("Z")).

Definition DrawCircle (cx cy radius : Q) (r : svgPathRecorder) : svgPathRecorder :=
  let r := set_currentCommands r
    (appendTo (currentCommands r)
     ("M" ++ fmt_2f (cx + radius) ++ " " ++ fmt_2f cy ++
      " A" ++ fmt_2f radius ++ " " ++ fmt_2f radius ++ " 0 1 1 " ++
      fmt_2f (cx - radius) ++ " " ++ fmt_2f cy ++
      " A" ++ fmt_2f radius ++ " " ++ fmt_2f radius ++ " 0 1 1 " ++
      fmt_2f (cx + radius) ++ " " ++ fmt_2f cy ++ " Z")) in
  set_currentXY r (cx + radius) cy.

Definition DrawRectangle (x y w h : Q) (r : svgPathRecorder) : svgPathRecorder :=
  let r := set_currentCommands r
    (appendTo (currentCommands r)
     ("M" ++ fmt_2f x ++ " " ++ fmt_2f y ++
      " L" ++ fmt_2f (x + w) ++ " " ++ fmt_2f y ++
      " L" ++ fmt_2f (x + w) ++ " " ++ fmt_2f (y + h) ++
      " L" ++ fmt_2f x ++ " " ++ fmt_2f (y + h) ++ " Z")) in
  set_currentXY r x (y + h).

Definition SetColor (c : Color) (r : svgPathRecorder) : svgPathRecorder :=
  set_currentColor r c.

(** [r.strokeWidth > 0] *)
Definition positive (q : Q) : bool := (0 <? Qnum q)%Z.

Definition generateSVGPathElement (r : svgPathRecorder)
  (pathData operation colorStr : string) : string :=
  let attrs : list string := nil in
  let attrs :=
    if String.eqb operation "fill" then
      let attrs :=
        if negb (String.eqb (fillRule r) "")
        then appendTo attrs ("fill-rule=" ++ dq ++ fillRule r ++ dq) else attrs in
      if negb (String.eqb colorStr "")
      then appendTo attrs ("fill=" ++ dq ++ colorStr ++ dq) else attrs
    else if String.eqb operation "stroke" then
      let attrs :=
        if negb (String.eqb colorStr "")
        then appendTo attrs ("stroke=" ++ dq ++ colorStr ++ dq) else attrs in
      let attrs :=
        if positive (strokeWidth r)
        then appendTo attrs ("stroke-width=" ++ dq ++ fmt_2f (strokeWidth r) ++ dq)
        else attrs in
      let attrs :=
        if negb (String.eqb (strokeLineCap r) "")
        then appendTo attrs ("stroke-linecap=" ++ dq ++ strokeLineCap r ++ dq)
        else attrs in
      let attrs :=
        if (0 <? Z.of_nat (length (strokeDash r)))%Z then
          let dashStr := map fmt_2f (strokeDash r) in
          appendTo attrs ("stroke-dasharray=" ++ dq ++ Join dashStr " " ++ dq)
        else attrs in
      appendTo attrs ("fill=" ++ dq ++ "none" ++ dq)
    else attrs in
  if (0 <? Z.of_nat (length attrs))%Z then
    "<path d=" ++ dq ++ pathData ++ dq ++ " " ++ Join attrs " " ++ "/>"
  else "<path d=" ++ dq ++ pathData ++ dq ++ "/>".

Definition Fill (r : svgPathRecorder) : svgPathRecorder :=
  let r :=
    if (0 <? Z.of_nat (length (currentCommands r)))%Z then
      let pathData := Join (currentCommands r) " " in
      let colorStr := if negb (hasGradient r) then colorToHex (currentColor r) else "" in
      let r := set_pathElements r
        (appendTo (pathElements r) (generateSVGPathElement r pathData "fill" colorStr)) in
      set_currentCommands r nil
    else r in
  let r := set_strokeDash r nil in
  let r := set_strokeWidth r 0 in
  set_strokeLineCap r "".

Definition Stroke (r : svgPathRecorder) : svgPathRecorder :=
  let r :=
    if (0 <? Z.of_nat (length (currentCommands r)))%Z then
      let pathData := Join (currentCommands r) " " in
      let colorStr := colorToHex (currentColor r) in
      let r := set_pathElements r
        (appendTo (pathElements r) (generateSVGPathElement r pathData "stroke" colorStr)) in
      set_currentCommands r nil
    else r in
  let r := set_strokeDash r nil in
  let r := set_strokeWidth r 0 in
  set_strokeLineCap r "".

Definition SetDash (dashes : list Q) (r : svgPathRecorder) : svgPathRecorder :=
  set_strokeDash r dashes.

Definition SetLineWidth (lineWidth : Q) (r : svgPathRecorder) : svgPathRecorder :=
  set_strokeWidth r lineWidth.

Definition SetLineCap (lineCap : Z) (r : svgPathRecorder) : svgPathRecorder :=
  set_strokeLineCap r
    (match lineCap with
     | 0%Z => "butt"
     | 1%Z => "round"
     | 2%Z => "square"
     | _ => "butt"
     end).

Definition SetLineCapSquare (r : svgPathRecorder) : svgPathRecorder :=
  set_strokeLineCap r "square".

Definition SetFillRuleEvenOdd (r : svgPathRecorder) : svgPathRecorder :=
  set_fillRule r "evenodd".

Definition SetFillRuleWinding (r : svgPathRecorder) : svgPathRecorder :=
  set_fillRule r "nonzero".

Definition NewSubPath (r : svgPathRecorder) : svgPathRecorder := r.

(** [toSVGPath]: the markup, and the recorder as the call leaves it. *)
Definition toSVGPath (r : svgPathRecorder) : string * svgPathRecorder :=
  let r := Fill r in
  if (Z.of_nat (length (pathElements r)) =? 0)%Z then ("", r)
  else (Join (pathElements r) "", r).

(** The recorder as the receiver of the interface's calls. *)
Definition call (r : svgPathRecorder) (c : GraphicsContext.Call) : svgPathRecorder :=
  match c with
  | GraphicsContext.MoveTo x y => MoveTo x y r
  | GraphicsContext.LineTo x y => LineTo x y r
  | GraphicsContext.QuadraticTo cx cy x y => QuadraticTo cx cy x y r
  | GraphicsContext.ClosePath => ClosePath r
  | GraphicsContext.DrawCircle cx cy radius => DrawCircle cx cy radius r
  | GraphicsContext.DrawRectangle x y w h => DrawRectangle x y w h r
  | GraphicsContext.SetColor c => SetColor c r
  | GraphicsContext.Fill => Fill r
  | GraphicsContext.SetDash dashes => SetDash dashes r
  | GraphicsContext.SetLineWidth w => SetLineWidth w r
  | GraphicsContext.SetLineCap cap => SetLineCap cap r
  | GraphicsContext.SetLineCapSquare => SetLineCapSquare r
  | GraphicsContext.Stroke => Stroke r
  | GraphicsContext.SetFillRuleEvenOdd => SetFillRuleEvenOdd r
  | GraphicsContext.NewSubPath => NewSubPath r
  | GraphicsContext.SetFillRuleWinding => SetFillRuleWinding r
  end.

(** [svgPathShape.GenerateSVGPath]: a fresh recorder, the calls of the
    shape's [Draw], then [toSVGPath]. *)
Definition GenerateSVGPath (draw : list GraphicsContext.Call) (hasGradient : bool)
  : string :=
  let recorder := NewSVGPathRecorder hasGradient in
  let recorder := fold_left call draw recorder in
  fst (toSVGPath recorder).

End SvgPathRecorder.

Close Scope string_scope.

(** ** imgkit: the halftone preprocessor *)

Module imgkit.

(** [color.GrayModel.Convert(c).(color.Gray).Y]: the luminance of a
    color, from its 16-bit channels. *)
Definition GrayModel_Convert (c : Color16) : Z :=
  uint8 (Z.shiftr (19595 * c16_r c + 38470 * c16_g c + 7471 * c16_b c
                   + Z.shiftl 1 15) 24).

(** [Gray(src)] *)
Definition Gray (src : Image) : option image_Gray :=
  let bounds := Bounds src in
  let height := Y (Max bounds) - Y (Min bounds) in
  let width := X (Max bounds) - X (Min bounds) in
  let gray := NewGray bounds in
  forZ (loopFuel 0 height) 0 (fun i => i <? height) 1
    (fun i gray =>
       do gray' <-
         forZ (loopFuel 0 width) 0 (fun j => j <? width) 1
           (fun j gray =>
              let c := GrayModel_Convert (At16 src j i) in
              Some (Continue (SetGray gray j i c)))
           gray;
       Some (Continue gray'))
    gray.

(** [image.NewRGBA(bounds)] followed by
    [draw.Draw(dst, bounds, src, bounds.Min, draw.Src)], by its effect:
    every pixel of [bounds] holds the source pixel at the same place,
    converted to the RGBA model; [Stride] is four times the width. *)
Definition copyRGBA (src : Image) (bounds : Rectangle) : Image :=
  let rangeZ lo hi := map (fun k => lo + Z.of_nat k) (seq 0 (Z.to_nat (hi - lo))) in
  RGBAImage
    (flat_map
       (fun y =>
          flat_map
            (fun x => let '(r, g, b, a) := At8 src x y in [r; g; b; a])
            (rangeZ (X (Min bounds)) (X (Max bounds))))
       (rangeZ (Y (Min bounds)) (Y (Max bounds))))
    (4 * Dx bounds) bounds.

(** [Binaryzation].  [color.White] and [color.Black] are written through
    [Gray.Set], which stores their luminance: 255 and 0. *)
Definition Binaryzation (src : Image) (threshold : Z) (useOriginalColors : bool)
  : option Image :=
  let threshold :=
    if (threshold <? 0) || (threshold >? 255) then 128 else threshold in
  let bounds := Bounds src in
  let height := Y (Max bounds) - Y (Min bounds) in
  let width := X (Max bounds) - X (Min bounds) in
  if useOriginalColors then
    let dst := copyRGBA src bounds in
    Some dst
  else
    do gray <- Gray src;
    do gray <-
      forZ (loopFuel 0 height) 0 (fun i => i <? height) 1
        (fun i gray =>
           do gray' <-
             forZ (loopFuel 0 width) 0 (fun j => j <? width) 1
               (fun j gray =>
                  if GrayAt gray j i >? threshold
                  then Some (Continue (SetGray gray j i 255))
                  else Some (Continue (SetGray gray j i 0)))
               gray;
           Some (Continue gray'))
        gray;
    Some (GrayImage gray).

End imgkit.

(** ** DrawContext and the built-in shapes *)

Open Scope string_scope.

(** [float64(n)] for an [int] [n], and [int(f)] for a [float64] [f]
    (truncation toward zero). *)
Definition float64 (n : Z) : Q := inject_Z n.

Definition int (f : Q) : Z := Z.quot (Qnum f) (Zpos (Qden f)).

(** [DrawContext].  The embedded [GraphicsContext] is the receiver of
    the calls that a shape makes; a shape's [Draw] is modelled by the list
    of these calls. *)
Record DrawContext : Type := mkDrawContext {
  ctx_x : Q;
  ctx_y : Q;
  ctx_w : Z;
  ctx_h : Z;
  ctx_color : Color;
  ctx_neighbours : Z
}.

Definition UpperLeft (dc : DrawContext) : Q * Q := (ctx_x dc, ctx_y dc).
Definition Edge (dc : DrawContext) : Z * Z := (ctx_w dc, ctx_h dc).

Module rectangle.
Definition Draw (c : DrawContext) : list GraphicsContext.Call :=
  [GraphicsContext.DrawRectangle (ctx_x c) (ctx_y c)
     (float64 (ctx_w c)) (float64 (ctx_h c));
   GraphicsContext.SetColor (ctx_color c);
   GraphicsContext.Fill]%list.

Definition DrawFinder (ctx : DrawContext) : list GraphicsContext.Call := Draw ctx.
End rectangle.

Module circle.
(** [c.w / 2] and [c.h / 2] divide two [int]s: the quotient is truncated. *)
Definition Draw (c : DrawContext) : list GraphicsContext.Call :=
  let radius := (ctx_w c ÷ 2)%Z in
  let r2 := (ctx_h c ÷ 2)%Z in
  let radius := if (r2 <=? radius)%Z then r2 else radius in
  let cx := (ctx_x c + float64 (ctx_w c) / 2)%Q in
  let cy := (ctx_y c + float64 (ctx_h c) / 2)%Q in
  [GraphicsContext.DrawCircle cx cy (float64 radius);
   GraphicsContext.SetColor (ctx_color c);
   GraphicsContext.Fill]%list.

Definition DrawFinder (ctx : DrawContext) : list GraphicsContext.Call := Draw ctx.
End circle.

(** An [IShape]: one of the two built-in shapes, or a custom one, known
    by its two methods. *)
Inductive IShape : Type :=
| _shapeRectangle
| _shapeCircle
| customShape (Draw DrawFinder : DrawContext -> list GraphicsContext.Call).

Definition IShape_Draw (s : IShape) (ctx : DrawContext) : list GraphicsContext.Call :=
  match s with
  | _shapeRectangle => rectangle.Draw ctx
  | _shapeCircle => circle.Draw ctx
  | customShape Draw _ => Draw ctx
  end.

Definition IShape_DrawFinder (s : IShape) (ctx : DrawContext)
  : list GraphicsContext.Call :=
  match s with
  | _shapeRectangle => rectangle.DrawFinder ctx
  | _shapeCircle => circle.DrawFinder ctx
  | customShape _ DrawFinder => DrawFinder ctx
  end.

(** ** SVGShape *)

Module svgRectangle.
Definition GenerateSVGPath (ctx : DrawContext) (hasGradient : bool) : string :=
  let '(x, y) := UpperLeft ctx in
  let '(w, h) := Edge ctx in
  "<rect x=" ++ dq ++ fmt_2f x ++ dq ++ " y=" ++ dq ++ fmt_2f y ++ dq ++
  " width=" ++ dq ++ fmt_2f (float64 w) ++ dq ++
  " height=" ++ dq ++ fmt_2f (float64 h) ++ dq ++ "/>".

Definition GenerateSVGFinder (ctx : DrawContext) (hasGradient : bool) : string :=
  GenerateSVGPath ctx hasGradient.
End svgRectangle.

Module svgCircle.
(** The center and the radius that [GenerateSVGPath] prints. *)
Definition geometry (ctx : DrawContext) : Q * Q * Q :=
  let '(x, y) := UpperLeft ctx in
  let '(w, h) := Edge ctx in
  let cx := (x + float64 w / 2)%Q in
  let cy := (y + float64 h / 2)%Q in
  let radius := (float64 w / 2)%Q in
  let radius :=
    if Qlt_le_dec (float64 h / 2) radius then (float64 h / 2)%Q else radius in
  (cx, cy, radius).

Definition GenerateSVGPath (ctx : DrawContext) (hasGradient : bool) : string :=
  let '(cx, cy, radius) := geometry ctx in
  "<circle cx=" ++ dq ++ fmt_2f cx ++ dq ++ " cy=" ++ dq ++ fmt_2f cy ++ dq ++
  " r=" ++ dq ++ fmt_2f radius ++ dq ++ "/>".

Definition GenerateSVGFinder (ctx : DrawContext) (hasGradient : bool) : string :=
  GenerateSVGPath ctx hasGradient.
End svgCircle.

Module svgPathShape.
Definition GenerateSVGPath (shape : IShape) (ctx : DrawContext) (hasGradient : bool)
  : string :=
  let recorder := SvgPathRecorder.NewSVGPathRecorder hasGradient in
  let tempCtx := mkDrawContext (ctx_x ctx) (ctx_y ctx) (ctx_w ctx) (ctx_h ctx)
                   (ctx_color ctx) (ctx_neighbours ctx) in
  let recorder := fold_left SvgPathRecorder.call (IShape_Draw shape tempCtx) recorder in
  fst (SvgPathRecorder.toSVGPath recorder).

Definition GenerateSVGFinder (shape : IShape) (ctx : DrawContext) (hasGradient : bool)
  : string :=
  let recorder := SvgPathRecorder.NewSVGPathRecorder hasGradient in
  let tempCtx := mkDrawContext (ctx_x ctx) (ctx_y ctx) (ctx_w ctx) (ctx_h ctx)
                   (ctx_color ctx) (ctx_neighbours ctx) in
  let recorder :=
    fold_left SvgPathRecorder.call (IShape_DrawFinder shape tempCtx) recorder in
  fst (SvgPathRecorder.toSVGPath recorder).
End svgPathShape.

(** The interface [SVGShape], by its two methods. *)
Record SVGShape : Type := mkSVGShape {
  GenerateSVGPath : DrawContext -> bool -> string;
  GenerateSVGFinder : DrawContext -> bool -> string
}.

Definition getSVGShape (shape : IShape) : SVGShape :=
  match shape with
  | _shapeCircle =>
      mkSVGShape svgCircle.GenerateSVGPath svgCircle.GenerateSVGFinder
  | _shapeRectangle =>
      mkSVGShape svgRectangle.GenerateSVGPath svgRectangle.GenerateSVGFinder
  | _ =>
      mkSVGShape (svgPathShape.GenerateSVGPath shape)
                 (svgPathShape.GenerateSVGFinder shape)
  end.

Close Scope string_scope.

(** ** The gradient projector *)

Module Gradient.
Open Scope string_scope.

Record ColorStop : Type := mkColorStop { T : Q; StopColor : Color16 }.

Record LinearGradient : Type := mkLinearGradient {
  Angle : Q;
  Stops : list ColorStop
}.

(** [image.Rect(x0, y0, x1, y1)]: the coordinates are swapped where
    needed, so that the rectangle is well formed. *)
Definition image_Rect (x0 y0 x1 y1 : Z) : Rectangle :=
  let '(x0, x1) := if (x0 >? x1)%Z then (x1, x0) else (x0, x1) in
  let '(y0, y1) := if (y0 >? y1)%Z then (y1, y0) else (y0, y1) in
  mkRectangle (mkPoint x0 y0) (mkPoint x1 y1).

(** The constant [math.Pi] as a [float64]: 0x400921FB54442D18. *)
Definition math_Pi : Q := 884279719003555 # 281474976710656.

(** The verb [%.3f]: the value rounded to three decimals (a tie goes to
    the even digit), with the sign of the value. *)
Definition fmt_3f (q : Q) : string :=
  let a := (Z.abs (Qnum q) * 1000)%Z in
  let d := Zpos (Qden q) in
  let k := (a / d)%Z in
  let r := (a mod d)%Z in
  let n := (match (2 * r ?= d)%Z with
            | Lt => k
            | Gt => k + 1
            | Eq => if Z.even k then k else k + 1
            end)%Z in
  let frac := (n mod 1000)%Z in
  (if (Qnum q <? 0)%Z then "-" else "") ++
  fmt_d (n / 1000) ++ "." ++ fmt_d (frac / 100) ++ fmt_d (frac / 10 mod 10) ++
  fmt_d (frac mod 10).

(** A [float64] that may be [math.Inf(1)] or [math.Inf(-1)]. *)
Inductive extended : Type :=
| PosInf
| NegInf
| Finite (q : Q).

(** [proj < m] and [proj > m] for a finite [proj]. *)
Definition less (proj : Q) (m : extended) : bool :=
  match m with
  | PosInf => true
  | NegInf => false
  | Finite r => negb (Qle_bool r proj)
  end.

Definition greater (proj : Q) (m : extended) : bool :=
  match m with
  | PosInf => false
  | NegInf => true
  | Finite r => negb (Qle_bool proj r)
  end.

(** The value of [minProj] and [maxProj] after the loop over the four
    corners, whose first iteration makes both finite. *)
Definition value (m : extended) : Q :=
  match m with
  | Finite q => q
  | _ => 0%Q
  end.

(** The body of [for _, p := range corners]. *)
Definition projectCorner (dx dy : Q) (st : extended * extended) (p : Q * Q)
  : extended * extended :=
  let '(minProj, maxProj) := st in
  let proj := (fst p * dx + snd p * dy)%Q in
  let minProj := if less proj minProj then Finite proj else minProj in
  let maxProj := if greater proj maxProj then Finite proj else maxProj in
  (minProj, maxProj).

(** The closure [clamp]: into [0, 255], then [uint8]. *)
Definition clamp (v : Z) : Z :=
  if (v <? 0)%Z then 0%Z
  else if (v >? 255)%Z then 255%Z
  else uint8 v.

(** The two writers call [math.Cos] and [math.Sin], functions of the
    standard library that are not part of this package: the writers are
    stated for any two functions in their place, and a theorem says what
    it needs of them. *)
Section Projector.
Variable math_Cos : Q -> Q.
Variable math_Sin : Q -> Q.

(** The gradient axis: the lines that [writeSVGGradient] and
    [writeSvgoGradient] share word for word, from the angle to
    [halfRange].  The result is [(centerX, centerY, halfRange, dx, dy)]. *)
Definition gradientAxis (angle : Q) (width height : Z) : Q * Q * Q * Q * Q :=
  let angleRad := (angle * math_Pi / 180)%Q in
  let dx := math_Cos angleRad in
  let dy := (- math_Sin angleRad)%Q in
  let bounds := image_Rect 0 0 width height in
  let xmin := float64 (X (Min bounds)) in
  let xmax := float64 (X (Max bounds)) in
  let ymin := float64 (Y (Min bounds)) in
  let ymax := float64 (Y (Max bounds)) in
  let corners := [(xmin, ymin); (xmin, ymax); (xmax, ymin); (xmax, ymax)]%list in
  let '(minProj, maxProj) := fold_left (projectCorner dx dy) corners (PosInf, NegInf) in
  let centerX := ((xmin + xmax) / 2)%Q in
  let centerY := ((ymin + ymax) / 2)%Q in
  let halfRange := ((value maxProj - value minProj) / 2)%Q in
  (centerX, centerY, halfRange, dx, dy).

(** [writeSVGGradient]: what it writes, for a writer that does not
    fail. *)
Definition writeSVGGradient (gradient : LinearGradient) (id : string)
  (width height : Z) : string :=
  let '(centerX, centerY, halfRange, dx, dy) :=
    gradientAxis (Angle gradient) width height in
  let x1 := (centerX - halfRange * dx)%Q in
  let y1 := (centerY - halfRange * dy)%Q in
  let x2 := (centerX + halfRange * dx)%Q in
  let y2 := (centerY + halfRange * dy)%Q in
  "<defs><linearGradient id=" ++ dq ++ id ++ dq ++
  " gradientUnits=" ++ dq ++ "userSpaceOnUse" ++ dq ++
  " x1=" ++ dq ++ fmt_3f x1 ++ dq ++ " y1=" ++ dq ++ fmt_3f y1 ++ dq ++
  " x2=" ++ dq ++ fmt_3f x2 ++ dq ++ " y2=" ++ dq ++ fmt_3f y2 ++ dq ++ ">\n" ++
  String.concat ""
    (map (fun stop =>
            let c := StopColor stop in
            let colorStr :=
              "#" ++ fmt_02x (uint8 (Z.shiftr (c16_r c) 8))
                  ++ fmt_02x (uint8 (Z.shiftr (c16_g c) 8))
                  ++ fmt_02x (uint8 (Z.shiftr (c16_b c) 8)) in
            "  <stop offset=" ++ dq ++ fmt_3f (T stop) ++ dq ++
            " stop-color=" ++ dq ++ colorStr ++ dq ++ "/>\n")
         (Stops gradient)) ++
  "</linearGradient></defs>\n".

(** [writeSvgoGradient]: the four coordinates that it passes to
    [canvas.LinearGradient]. *)
Definition writeSvgoGradient (gradient : LinearGradient) (width height : Z)
  : Z * Z * Z * Z :=
  let '(centerX, centerY, halfRange, dx, dy) :=
    gradientAxis (Angle gradient) width height in
  let x1 := int (centerX - halfRange * dx) in
  let y1 := int (centerY - halfRange * dy) in
  let x2 := int (centerX + halfRange * dx) in
  let y2 := int (centerY + halfRange * dy) in
  (clamp x1, clamp y1, clamp x2, clamp y2).

End Projector.

Close Scope string_scope.
End Gradient.

(** ** The QR matrix and the options *)

Open Scope string_scope.

(** Modelled from the spec: the matrix of the package [qrcode], which
    the encoders only consume.  Its type tags, of which the spec names
    FINDER, DATA and TIMING; a module value exposes [IsSet()] and [Type()]
    (here [Type_]); the matrix exposes its width, its height and a
    row-major iteration that yields [(x, y, value)]. *)
Inductive QRType : Type :=
| QRType_INIT
| QRType_DATA
| QRType_VERSION
| QRType_FORMAT
| QRType_FINDER
| QRType_DARK
| QRType_SPLITTER
| QRType_TIMING.

Definition QRType_eqb (a b : QRType) : bool :=
  match a, b with
  | QRType_INIT, QRType_INIT | QRType_DATA, QRType_DATA
  | QRType_VERSION, QRType_VERSION | QRType_FORMAT, QRType_FORMAT
  | QRType_FINDER, QRType_FINDER | QRType_DARK, QRType_DARK
  | QRType_SPLITTER, QRType_SPLITTER | QRType_TIMING, QRType_TIMING => true
  | _, _ => false
  end.

Record QRValue : Type := mkQRValue { Type_ : QRType; IsSet : bool }.

Record Matrix : Type := mkMatrix {
  Width : Z;
  Height : Z;
  ValueAt : Z -> Z -> QRValue
}.

(** [mat.Iterate(qrcode.IterDirection_ROW, f)]: the outputs of [f] on
    every cell, row by row. *)
Definition Iterate {A : Type} (mat : Matrix) (f : Z -> Z -> QRValue -> list A)
  : list A :=
  flat_map
    (fun y => flat_map (fun x => f (Z.of_nat x) (Z.of_nat y)
                                   (ValueAt mat (Z.of_nat x) (Z.of_nat y)))
                       (seq 0 (Z.to_nat (Width mat))))
    (seq 0 (Z.to_nat (Height mat))).

(** A [[4]int] and its element at a constant index. *)
Definition Int4 : Type := (Z * Z * Z * Z)%type.

Definition at4 (a : Int4) (i : Z) : Z :=
  let '(a0, a1, a2, a3) := a in
  match i with
  | 0%Z => a0
  | 1%Z => a1
  | 2%Z => a2
  | _ => a3
  end.

(** The fields of [outputImageOptions] that the encoders read. *)
Record outputImageOptions : Type := mkOptions {
  borderWidths : Int4;
  qrWidth : Z;
  logo : option Image;
  logoSafeZone : bool;
  logoSizeMultiplier : Z;
  qrGradient : option Gradient.LinearGradient;
  halftoneImg : option Image;
  bgTransparent : bool;
  shape : IShape
}.

Definition set_borderWidths (oo : outputImageOptions) (v : Int4) : outputImageOptions :=
  mkOptions v (qrWidth oo) (logo oo) (logoSafeZone oo) (logoSizeMultiplier oo)
    (qrGradient oo) (halftoneImg oo) (bgTransparent oo) (shape oo).

(** [WithBorderWidth]: the option applied to [oo].  The closure [apply]
    stores [top, right, bottom, left] at the indexes 0, 1, 2, 3.
    [_defaultPadding] is a constant defined in another file of the
    package. *)
Definition WithBorderWidth (_defaultPadding : Z) (widths : list Z)
  (oo : outputImageOptions) : outputImageOptions :=
  let apply (top right bottom left : Z) : Int4 := (top, right, bottom, left) in
  let w i := nth i widths 0%Z in
  set_borderWidths oo
    (match List.length widths with
     | 0%nat => apply _defaultPadding _defaultPadding _defaultPadding _defaultPadding
     | 1%nat => apply (w 0%nat) (w 0%nat) (w 0%nat) (w 0%nat)
     | 2%nat | 3%nat => apply (w 0%nat) (w 1%nat) (w 0%nat) (w 1%nat)
     | _ => apply (w 0%nat) (w 1%nat) (w 2%nat) (w 3%nat)
     end).

(** The verbs [#%02x%02x%02x] on [uint8(r>>8), uint8(g>>8), uint8(b>>8)]. *)
Definition hexOf (c : Color16) : string :=
  "#" ++ fmt_02x (uint8 (Z.shiftr (c16_r c) 8))
      ++ fmt_02x (uint8 (Z.shiftr (c16_g c) 8))
      ++ fmt_02x (uint8 (Z.shiftr (c16_b c) 8)).

(** [strings.Contains] *)
Fixpoint Contains (s substr : string) : bool :=
  String.prefix substr s ||
  match s with
  | EmptyString => false
  | String _ t => Contains t substr
  end.

(** The range [0, 1, 2] of the two halftone loops
    [for i := 0; i < 3; i++]. *)
Definition range3 : list Z := [0; 1; 2]%Z.

(** The functions that the encoders call and that are defined in other
    files of the package, and the scaler of [golang.org/x/image/draw]
    behind [imgkit.Scale]; the encoders are stated for any such
    functions. *)
Record Package : Type := mkPackage {
  qrBlockWidth : outputImageOptions -> Z;
  translateToRGBA : outputImageOptions -> QRValue -> Color16;
  halftoneColor : Image -> bool -> Z -> Z -> Color16;
  getNeighbours : (Z -> Z -> bool) -> Z -> Z -> Z;
  blockOverlapsLogo : Z -> Z -> Z -> Z -> Z -> Z -> Z -> Z -> Z -> bool;
  validLogoImage : Z -> Z -> Z -> Z -> Z -> bool;
  getShape : outputImageOptions -> IShape;
  Scale : Image -> Rectangle -> Image
}.

(** [a < b] and [a >= b] on [float64]. *)
Definition Qltb (a b : Q) : bool := negb (Qle_bool b a).
Definition Qgeb (a b : Q) : bool := Qle_bool b a.

(** ** svgEncoder.EncodeMatrix *)

Module svgEncoder.
Section EncodeMatrix.
Variable pkg : Package.
Variable opts : outputImageOptions.
Variable mat : Matrix.

Definition width : Z :=
  (Width mat * qrBlockWidth pkg opts
   + at4 (borderWidths opts) 0 + at4 (borderWidths opts) 1)%Z.

Definition height : Z :=
  (Height mat * qrBlockWidth pkg opts
   + at4 (borderWidths opts) 2 + at4 (borderWidths opts) 3)%Z.

Definition logoWidth : Z :=
  match logo opts with
  | Some l => (X (Max (Bounds l)) - X (Min (Bounds l)))%Z
  | None => 0%Z
  end.

Definition logoHeight : Z :=
  match logo opts with
  | Some l => (Y (Max (Bounds l)) - Y (Min (Bounds l)))%Z
  | None => 0%Z
  end.

Definition logoValid : bool :=
  match logo opts with
  | Some _ =>
      validLogoImage pkg width height logoWidth logoHeight (logoSizeMultiplier opts)
  | None => false
  end.

Definition svgShape : SVGShape := getSVGShape (getShape pkg opts).

(** [logoValid && opts.logoSafeZone && blockOverlapsLogo(...)] *)
Definition inLogoZone (x y : Z) : bool :=
  logoValid && logoSafeZone opts &&
  blockOverlapsLogo pkg x y (qrBlockWidth pkg opts)
    (at4 (borderWidths opts) 3) (at4 (borderWidths opts) 0)
    width height logoWidth logoHeight.

(** The occupancy bitmap, [bitmap[y][x]], with the logo zone cleared. *)
Definition bitmap (y x : Z) : bool :=
  if inLogoZone x y then false else IsSet (ValueAt mat x y).

Definition hasHalftone : bool :=
  match halftoneImg opts with Some _ => true | None => false end.

Definition halftoneW : Q := (float64 (qrBlockWidth pkg opts) / 3)%Q.

(** The body of the two halftone loops: what is written for the
    sub-cell [(i, j)] of the module at [(x, y)]; nothing when the color
    of the sub-cell is transparent or pure white ([continue]). *)
Definition halftoneCell (halftone : Image) (x y blockX blockY : Z)
  (drawCtx : DrawContext) (moduleColor : Color16) (i j : Z) : list string :=
  let subX := (float64 blockX + float64 i * halftoneW)%Q in
  let subY := (float64 blockY + float64 j * halftoneW)%Q in
  let subColor :=
    if (i =? 1)%Z && (j =? 1)%Z then moduleColor
    else halftoneColor pkg halftone (bgTransparent opts) (x * 3 + i)%Z (y * 3 + j)%Z in
  let r8 := uint8 (Z.shiftr (c16_r subColor) 8) in
  let g8 := uint8 (Z.shiftr (c16_g subColor) 8) in
  let b8 := uint8 (Z.shiftr (c16_b subColor) 8) in
  let a8 := uint8 (Z.shiftr (c16_a subColor) 8) in
  if (a8 =? 0)%Z || ((r8 =? 255)%Z && (g8 =? 255)%Z && (b8 =? 255)%Z) then nil
  else
    let subFillStr := "#" ++ fmt_02x r8 ++ fmt_02x g8 ++ fmt_02x b8 in
    let ctx2 := mkDrawContext subX subY (int halftoneW) (int halftoneW)
                  (Some subColor) (ctx_neighbours drawCtx) in
    let pathData := GenerateSVGPath svgShape ctx2 false in
    (cons ("<g fill=" ++ dq ++ subFillStr ++ dq ++ ">" ++ pathData ++ "</g>\n") nil).

(** [for i := 0; i < 3; i++ { for j := 0; j < 3; j++ { ... } }] *)
Definition halftoneCells (halftone : Image) (x y blockX blockY : Z)
  (drawCtx : DrawContext) (moduleColor : Color16) : list string :=
  flat_map (fun i =>
    flat_map (fun j => halftoneCell halftone x y blockX blockY drawCtx moduleColor i j)
      range3) range3.

Definition hasGradient : bool :=
  match qrGradient opts with Some _ => true | None => false end.

(** The callback of the rendering pass: what it writes for the module
    [v] at [(x, y)]. *)
Definition renderModule (halftone : Image) (x y : Z) (v : QRValue) : list string :=
  if inLogoZone x y then nil
  else
    let blockX := (x * qrBlockWidth pkg opts + at4 (borderWidths opts) 3)%Z in
    let blockY := (y * qrBlockWidth pkg opts + at4 (borderWidths opts) 0)%Z in
    let neighbours := getNeighbours pkg bitmap x y in
    let drawCtx := mkDrawContext (float64 blockX) (float64 blockY)
                     (qrBlockWidth pkg opts) (qrBlockWidth pkg opts)
                     (Some (translateToRGBA pkg opts v)) neighbours in
    if hasHalftone && QRType_eqb (Type_ v) QRType_DATA then
      halftoneCells halftone x y blockX blockY drawCtx (translateToRGBA pkg opts v)
    else if negb (IsSet v) then nil
    else
      let fillStr :=
        if hasGradient then "url(#qrGradient)"
        else hexOf (translateToRGBA pkg opts v) in
      let pathData :=
        match Type_ v with
        | QRType_FINDER => GenerateSVGFinder svgShape drawCtx hasGradient
        | _ => GenerateSVGPath svgShape drawCtx hasGradient
        end in
      let isComplexShape :=
        Contains pathData ("stroke=" ++ dq) || Contains pathData ("fill=" ++ dq) in
      if isComplexShape then
        if hasGradient
        then (cons ("<g fill=" ++ dq ++ "url(#qrGradient)" ++ dq ++ ">"
                    ++ pathData ++ "</g>\n") nil)
        else (cons ("<g>" ++ pathData ++ "</g>\n") nil)
      else (cons ("<g fill=" ++ dq ++ fillStr ++ dq ++ ">" ++ pathData ++ "</g>\n") nil).

(** The halftone image as the pass reads it:
    [imgkit.Binaryzation(imgkit.Scale(opts.halftoneImg, ...), 60, false)].
    Without a halftone source the variable stays [nil] and is never read;
    the model puts an empty image there. *)
Definition preparedHalftone : option Image :=
  match halftoneImg opts with
  | Some h =>
      imgkit.Binaryzation
        (Scale pkg h (Gradient.image_Rect 0 0 (Width mat * 3) (Height mat * 3)))
        60 false
  | None => Some (OtherImage (fun _ _ => mkColor16 0 0 0 0)
                    (mkRectangle (mkPoint 0 0) (mkPoint 0 0)))
  end.

(** The rendering pass of [EncodeMatrix] over the matrix. *)
Definition renderPass : option (list string) :=
  match preparedHalftone with
  | Some halftone => Some (Iterate mat (renderModule halftone))
  | None => None
  end.

End EncodeMatrix.
End svgEncoder.

(** ** SvgoEncoder.EncodeMatrix *)

(** A call [s.drawBlockWithSvgo(canvas, ctx, shape, qrType, fillColor)]. *)
Record svgoBlock : Type := mkSvgoBlock {
  block_ctx : DrawContext;
  block_shape : IShape;
  block_type : QRType;
  block_fill : string
}.

(** [color.Black], through [RGBA()]. *)
Definition color_Black : Color16 := mkColor16 0 0 0 65535.

Module SvgoEncoder.
Section EncodeMatrix.
Variable pkg : Package.
Variable opts : outputImageOptions.
Variable mat : Matrix.

Definition rows : Z := Height mat.
Definition cols : Z := Width mat.

Definition width : Z :=
  (cols * qrBlockWidth pkg opts
   + at4 (borderWidths opts) 3 + at4 (borderWidths opts) 1)%Z.

Definition height : Z :=
  (rows * qrBlockWidth pkg opts
   + at4 (borderWidths opts) 0 + at4 (borderWidths opts) 2)%Z.

Definition bitmap (y x : Z) : bool := IsSet (ValueAt mat x y).

Definition hasHalftone : bool :=
  match halftoneImg opts with Some _ => true | None => false end.

Definition halftoneW : Q := (float64 (qrBlockWidth pkg opts) / 3)%Q.

Definition hasGradient : bool :=
  match qrGradient opts with Some _ => true | None => false end.

(** The test of the logo zone, written out in this encoder. *)
Definition inLogoZone (blockX blockY : Z) : bool :=
  match logo opts with
  | Some l =>
      if logoSafeZone opts then
        let logoWidth := Dx (Bounds l) in
        let logoHeight := Dy (Bounds l) in
        let logoX := ((width - logoWidth) ÷ 2)%Z in
        let logoY := ((height - logoHeight) ÷ 2)%Z in
        let logoSafeZone := (qrBlockWidth pkg opts * 2)%Z in
        Qgeb (float64 blockX) (float64 logoX - float64 logoSafeZone) &&
        Qltb (float64 blockX) (float64 (logoX + logoWidth) + float64 logoSafeZone) &&
        Qgeb (float64 blockY) (float64 logoY - float64 logoSafeZone) &&
        Qltb (float64 blockY) (float64 (logoY + logoHeight) + float64 logoSafeZone)
      else false
  | None => false
  end.

(** The body of the two halftone loops: the call made for the
    sub-cell [(i, j)], none when the halftone sample is transparent. *)
Definition halftoneCell (halftone : Image) (x y blockX blockY : Z) (v : QRValue)
  (i j : Z) : list svgoBlock :=
  let subX := (blockX + int (float64 i * halftoneW))%Z in
  let subY := (blockY + int (float64 j * halftoneW))%Z in
  let subCtx := mkDrawContext (float64 subX) (float64 subY)
                  (int halftoneW) (int halftoneW) (Some color_Black) 0 in
  if (i =? 1)%Z && (j =? 1)%Z then
    let fillStr :=
      if hasGradient then "url(#qrGradient)"
      else hexOf (translateToRGBA pkg opts v) in
    (cons (mkSvgoBlock subCtx (getShape pkg opts) QRType_DATA fillStr) nil)
  else
    let c := halftoneColor pkg halftone (bgTransparent opts) (x * 3 + i)%Z (y * 3 + j)%Z in
    if (c16_a c =? 0)%Z then nil
    else (cons (mkSvgoBlock subCtx (getShape pkg opts) QRType_DATA (hexOf c)) nil).

Definition halftoneCells (halftone : Image) (x y blockX blockY : Z) (v : QRValue)
  : list svgoBlock :=
  flat_map (fun i =>
    flat_map (fun j => halftoneCell halftone x y blockX blockY v i j) range3) range3.

(** The callback of the rendering pass. *)
Definition renderModule (halftone : Image) (x y : Z) (v : QRValue) : list svgoBlock :=
  if negb (IsSet v) then nil
  else
    let blockX := (x * qrBlockWidth pkg opts + at4 (borderWidths opts) 3)%Z in
    let blockY := (y * qrBlockWidth pkg opts + at4 (borderWidths opts) 0)%Z in
    if inLogoZone blockX blockY then nil
    else if hasHalftone && negb (QRType_eqb (Type_ v) QRType_FINDER) then
      halftoneCells halftone x y blockX blockY v
    else
      let fillColor :=
        if hasGradient then "url(#qrGradient)"
        else hexOf (translateToRGBA pkg opts v) in
      let neighbours := getNeighbours pkg bitmap x y in
      let blockSize := qrBlockWidth pkg opts in
      let drawCtx := mkDrawContext (float64 blockX) (float64 blockY)
                       blockSize blockSize (Some color_Black) neighbours in
      (cons (mkSvgoBlock drawCtx (getShape pkg opts) (Type_ v) fillColor) nil).

End EncodeMatrix.
End SvgoEncoder.

(** ** svgEncoder.EncodeMatrix, the earlier revision

    The file [image_format.go] comes in two revisions; the first one has
    [SvgoEncoder] and this [svgEncoder.EncodeMatrix], which returns for an
    unset module before anything else. *)

Module legacySvgEncoder.
Section EncodeMatrix.
Variable pkg : Package.
Variable opts : outputImageOptions.
Variable mat : Matrix.

Definition width : Z := svgEncoder.width pkg opts mat.
Definition height : Z := svgEncoder.height pkg opts mat.
Definition hasHalftone : bool := svgEncoder.hasHalftone opts.
Definition hasGradient : bool := svgEncoder.hasGradient opts.
Definition halftoneW : Q := (float64 (qrBlockWidth pkg opts) / 3)%Q.

(** The two loops of the halftone branch: a rectangle of nine tenths of
    the sub-cell for the center and for every black halftone pixel. *)
Definition halftoneCells (halftone : Image) (x y blockX blockY : Z) (v : QRValue)
  : list string :=
  let halftoneImgWidth := (Width mat * 3)%Z in
  let halftoneImgHeight := (Width mat * 3)%Z in
  let startX := (x * 3)%Z in
  let startY := (y * 3)%Z in
  flat_map (fun i => flat_map (fun j =>
    let halftoneX := (startX + i)%Z in
    let halftoneY := (startY + j)%Z in
    let fillStr : option string :=
      if hasGradient then Some "url(#qrGradient)"
      else if (i =? 1)%Z && (j =? 1)%Z then Some (hexOf (translateToRGBA pkg opts v))
      else if (halftoneX <? halftoneImgWidth)%Z && (halftoneY <? halftoneImgHeight)%Z then
        match halftone with
        | GrayImage g =>
            if (GrayAt g halftoneX halftoneY =? 0)%Z
            then Some (hexOf (translateToRGBA pkg opts v))
            else None
        | _ => None
        end
      else None in
    match fillStr with
    | None => nil
    | Some fillStr =>
        let subX := (blockX + int (float64 i * halftoneW))%Z in
        let subY := (blockY + int (float64 j * halftoneW))%Z in
        let rectSize := (halftoneW * (9 # 10))%Q in
        let cx := (float64 subX + (halftoneW - rectSize) / 2)%Q in
        let cy := (float64 subY + (halftoneW - rectSize) / 2)%Q in
        (cons ("<g fill=" ++ dq ++ fillStr ++ dq ++ "><rect x=" ++ dq ++ fmt_2f cx ++ dq ++
         " y=" ++ dq ++ fmt_2f cy ++ dq ++ " width=" ++ dq ++ fmt_2f rectSize ++ dq ++
         " height=" ++ dq ++ fmt_2f rectSize ++ dq ++ "/></g>") nil)
    end) range3) range3.

(** The callback of the rendering pass. *)
Definition renderModule (halftone : Image) (x y : Z) (v : QRValue) : list string :=
  if negb (IsSet v) then nil
  else if svgEncoder.inLogoZone pkg opts mat x y then nil
  else
    let blockX := (x * qrBlockWidth pkg opts + at4 (borderWidths opts) 3)%Z in
    let blockY := (y * qrBlockWidth pkg opts + at4 (borderWidths opts) 0)%Z in
    if hasHalftone && QRType_eqb (Type_ v) QRType_DATA then
      halftoneCells halftone x y blockX blockY v
    else
      let fillStr :=
        if hasGradient then "url(#qrGradient)"
        else hexOf (translateToRGBA pkg opts v) in
      let neighbours := getNeighbours pkg (svgEncoder.bitmap pkg opts mat) x y in
      let drawCtx := mkDrawContext (float64 blockX) (float64 blockY)
                       (qrBlockWidth pkg opts) (qrBlockWidth pkg opts)
                       (Some (translateToRGBA pkg opts v)) neighbours in
      let svgShape := svgEncoder.svgShape pkg opts in
      let pathData :=
        match Type_ v with
        | QRType_FINDER => GenerateSVGFinder svgShape drawCtx hasGradient
        | _ => GenerateSVGPath svgShape drawCtx hasGradient
        end in
      let isComplexShape :=
        Contains pathData ("stroke=" ++ dq) || Contains pathData ("fill=" ++ dq) in
      if isComplexShape then
        if hasGradient
        then (cons ("<g fill=" ++ dq ++ "url(#qrGradient)" ++ dq ++ ">"
                    ++ pathData ++ "</g>\n") nil)
        else (cons ("<g>" ++ pathData ++ "</g>\n") nil)
      else (cons ("<g fill=" ++ dq ++ fillStr ++ dq ++ ">" ++ pathData ++ "</g>\n") nil).

End EncodeMatrix.
End legacySvgEncoder.

Close Scope string_scope.

(** ** The calls of a shape, read as path data

    What the claims about the path recorder speak of: the path commands
    that the calls of a shape have issued and not yet committed, and the
    fill rule and the color that the calls have set.  The recorder's
    output is compared with them. *)

Module Pending.
Import GraphicsContext.
Open Scope string_scope.

(** The SVG path data that one path-building call stands for; the other
    calls build no path. *)
Definition pathText (c : Call) : list string :=
  match c with
  | MoveTo x y => cons ("M" ++ fmt_2f x ++ " " ++ fmt_2f y) nil
  | LineTo x y => cons ("L" ++ fmt_2f x ++ " " ++ fmt_2f y) nil
  | QuadraticTo cx cy x y =>
      cons ("Q" ++ fmt_2f cx ++ " " ++ fmt_2f cy ++ " " ++ fmt_2f x ++ " " ++ fmt_2f y)
        nil
  | ClosePath => cons "Z" nil
  | DrawCircle cx cy radius =>
      cons ("M" ++ fmt_2f (cx + radius) ++ " " ++ fmt_2f cy ++
            " A" ++ fmt_2f radius ++ " " ++ fmt_2f radius ++ " 0 1 1 " ++
            fmt_2f (cx - radius) ++ " " ++ fmt_2f cy ++
            " A" ++ fmt_2f radius ++ " " ++ fmt_2f radius ++ " 0 1 1 " ++
            fmt_2f (cx + radius) ++ " " ++ fmt_2f cy ++ " Z") nil
  | DrawRectangle x y w h =>
      cons ("M" ++ fmt_2f x ++ " " ++ fmt_2f y ++
            " L" ++ fmt_2f (x + w) ++ " " ++ fmt_2f y ++
            " L" ++ fmt_2f (x + w) ++ " " ++ fmt_2f (y + h) ++
            " L" ++ fmt_2f x ++ " " ++ fmt_2f (y + h) ++ " Z") nil
  | _ => nil
  end.

(** The two commit points. *)
Definition commits (c : Call) : bool :=
  match c with
  | Fill | Stroke => true
  | _ => false
  end.

(** The path commands issued since the last commit, after [calls], for
    the commands [pending] before them. *)
Definition pendingAfter (pending : list string) (calls : list Call) : list string :=
  fold_left (fun p c => if commits c then nil else (p ++ pathText c)%list) calls pending.

(** The fill rule in force after [calls]. *)
Definition fillRuleAfter (rule : string) (calls : list Call) : string :=
  fold_left (fun r c =>
               match c with
               | SetFillRuleEvenOdd => "evenodd"
               | SetFillRuleWinding => "nonzero"
               | _ => r
               end) calls rule.

(** The color in force after [calls]. *)
Definition colorAfter (col : Color) (calls : list Call) : Color :=
  fold_left (fun k c => match c with SetColor c' => c' | _ => k end) calls col.

(** No call of the list is a commit. *)
Definition neverCommits (calls : list Call) : bool :=
  forallb (fun c => negb (commits c)) calls.

(** A filled path element: the path data, then the fill rule and the
    fill color, each left out when it is empty. *)
Definition fillElement (pathData rule colorStr : string) : string :=
  "<path d=" ++ dq ++ pathData ++ dq ++
  (if String.eqb rule "" then "" else " fill-rule=" ++ dq ++ rule ++ dq) ++
  (if String.eqb colorStr "" then "" else " fill=" ++ dq ++ colorStr ++ dq) ++
  "/>".

End Pending.

(** ** What a list of rectangles covers *)

(** The pixel [(x, y)] lies inside the rectangle [r]. *)
Definition covers (r : rectInfo) (x y : Z) : Prop :=
  rect_x r <= x < rect_x r + rect_width r /\
  rect_y r <= y < rect_y r + rect_height r.

Definition coversb (r : rectInfo) (x y : Z) : bool :=
  (rect_x r <=? x) && (x <? rect_x r + rect_width r) &&
  (rect_y r <=? y) && (y <? rect_y r + rect_height r).

(** No pixel lies in two rectangles of the list (two entries of the list
    at different positions). *)
Definition pairwise_disjoint (rects : list rectInfo) : Prop :=
  forall i j r1 r2,
    nth_error rects i = Some r1 -> nth_error rects j = Some r2 -> i <> j ->
    forall x y, ~ (covers r1 x y /\ covers r2 x y).

(** The color map of a list of rectangles: [(x, y)] is covered by a
    rectangle of the list whose recorded color is [c]. *)
Definition colored (rects : list rectInfo) (x y : Z) (c : Pixel) : Prop :=
  exists r, In r rects /\ covers r x y /\ rectColor r = c.

(** Re-painting.  A canvas gives every pixel a color; the blank canvas is
    transparent everywhere; painting a rectangle overwrites the pixels
    inside it with its recorded color. *)
Definition Canvas : Type := Z -> Z -> Pixel.

Definition blank : Canvas := fun _ _ => (0, 0, 0, 0).

Definition paintRect (c : Canvas) (r : rectInfo) : Canvas :=
  fun x y => if coversb r x y then rectColor r else c x y.

Definition repaint (rects : list rectInfo) : Canvas :=
  fold_left paintRect rects blank.

(** Bounds as [img.Bounds()] gives them: [Min] not beyond [Max]. *)
Definition wellFormed (b : Rectangle) : Prop :=
  X (Min b) <= X (Max b) /\ Y (Min b) <= Y (Max b).

(** The entry of [visited] for the pixel [(x, y)]. *)
Definition visitedAt (bounds : Rectangle) (visited : list bool) (x y : Z) : bool :=
  nth (Z.to_nat (getIndex bounds x y)) visited false.

(** [visited] has one entry per pixel of [bounds]. *)
Definition sized (bounds : Rectangle) (visited : list bool) : Prop :=
  Z.of_nat (length visited) = Dx bounds * Dy bounds.

(** A rectangle that the decomposition may record for the pixel reader
    [px]: not empty, inside [bounds], of a color that is not background,
    and every pixel inside it has exactly that color. *)
Record solidRect (px : Z -> Z -> Pixel) (bounds : Rectangle) (r : rectInfo) : Prop :=
  mkSolidRect {
    solid_width : 1 <= rect_width r;
    solid_height : 1 <= rect_height r;
    solid_left : X (Min bounds) <= rect_x r;
    solid_right : rect_x r + rect_width r <= X (Max bounds);
    solid_top : Y (Min bounds) <= rect_y r;
    solid_bottom : rect_y r + rect_height r <= Y (Max bounds);
    solid_foreground : isBackground (rectColor r) = false;
    solid_color : forall x y, covers r x y -> px x y = rectColor r
  }.

(** The state of a scan, a [visited] slice and the rectangles recorded so
    far, is consistent: a pixel is visited exactly when a recorded
    rectangle covers it, the rectangles are solid and pairwise disjoint. *)
Record scanState (px : Z -> Z -> Pixel) (bounds : Rectangle)
  (visited : list bool) (rects : list rectInfo) : Prop :=
  mkScanState {
    scan_sized : sized bounds visited;
    scan_visited : forall x y, PointIn x y bounds = true ->
      (visitedAt bounds visited x y = true <-> exists r, In r rects /\ covers r x y);
    scan_solid : forall r, In r rects -> solidRect px bounds r;
    scan_disjoint : pairwise_disjoint rects
  }.

(** The row-major scan has passed every pixel before [(x, y)]: each of
    them is background or visited. *)
Definition scannedBefore (px : Z -> Z -> Pixel) (bounds : Rectangle)
  (visited : list bool) (x y : Z) : Prop :=
  forall x' y', PointIn x' y' bounds = true ->
    y' < y \/ (y' = y /\ x' < x) ->
    isBackground (px x' y') = false -> visitedAt bounds visited x' y' = true.

(** Every pixel before [(x, y)] in row-major order that is not
    background is covered by a rectangle of the list. *)
Definition coveredBefore (px : Z -> Z -> Pixel) (bounds : Rectangle)
  (rects : list rectInfo) (x y : Z) : Prop :=
  forall x' y', PointIn x' y' bounds = true ->
    y' < y \/ (y' = y /\ x' < x) ->
    isBackground (px x' y') = false -> exists r, In r rects /\ covers r x' y'.

(** Two lists of rectangles induce the same color map. *)
Definition sameColorMap (l l' : list rectInfo) : Prop :=
  forall x y c, colored l x y c <-> colored l' x y c.

(** Every pixel of [bounds] can be read from the image: for an
    [*image.RGBA], whose [Pix] the greedy algorithm indexes itself, the
    four bytes of the pixel lie inside [Pix]. *)
Definition readable (img : Image) (bounds : Rectangle) : Prop :=
  match img with
  | RGBAImage Pix Stride Rect =>
      forall x y, PointIn x y bounds = true ->
        let offset := (y - Y (Min Rect)) * Stride + (x - X (Min Rect)) * 4 in
        0 <= offset /\ offset + 3 < Z.of_nat (length Pix)
  | _ => True
  end.

(** The image is as the standard library builds it: its bounds are well
    formed and, for an [*image.RGBA], the entries of [Pix] are bytes and
    [Pix] holds every pixel of the bounds. *)
Definition wellFormedImage (img : Image) : Prop :=
  wellFormed (Bounds img) /\
  readable img (Bounds img) /\
  match img with
  | RGBAImage Pix _ _ => Forall (fun v => 0 <= v < 256) Pix
  | _ => True
  end.

(** What [getPixel] reads at [(x, y)], with the transparent color where
    the read panics. *)
Definition pixelAt (img : Image) (x y : Z) : Pixel :=
  match Greedy.getPixel img x y with
  | Some p => p
  | None => (0, 0, 0, 0)
  end.

(** A rectangle with a width and a height of at least one pixel. *)
Definition properRect (r : rectInfo) : Prop :=
  1 <= rect_width r /\ 1 <= rect_height r.

(** A merge step keeps the color map of the rectangles seen so far: the
    merged list with [curr] at its end against the old one with [curr]
    and [next]. *)
Definition keepsColorMap
  (step : list rectInfo * rectInfo -> rectInfo -> list rectInfo * rectInfo) : Prop :=
  forall merged curr next,
    Forall properRect merged -> properRect curr -> properRect next ->
    sameColorMap (fst (step (merged, curr) next) ++ [snd (step (merged, curr) next)])
                 (merged ++ [curr] ++ [next]) /\
    Forall properRect (fst (step (merged, curr) next)) /\
    properRect (snd (step (merged, curr) next)).
(** A 4x3 test image: a 2x2 red block, a blue pixel, white elsewhere. *)
Definition red : Color16 := mkColor16 65535 0 0 65535.
Definition blue : Color16 := mkColor16 0 0 65535 65535.
Definition white : Color16 := mkColor16 65535 65535 65535 65535.

Definition sampleImage : Image :=
  OtherImage
    (fun x y =>
       if (x <? 2) && (y <? 2) then red
       else if (x =? 3) && (y =? 2) then blue
       else white)
    (mkRectangle (mkPoint 0 0) (mkPoint 4 3)).

(** A 5x4 test image on which the two algorithms return different
    lists: a 4x3 red block, blue below and to its right, one white pixel. *)
Definition sampleImage2 : Image :=
  OtherImage
    (fun x y =>
       if (x <? 4) && (y <? 3) then red
       else if (x =? 4) && (y =? 1) then white
       else blue)
    (mkRectangle (mkPoint 0 0) (mkPoint 5 4)).

(** A 3x2 [*image.RGBA] whose bounds start at (1, 1): two red pixels and
    a transparent one, then a red and two blue ones. *)
Definition sampleRGBA : Image :=
  RGBAImage
    [255; 0; 0; 255;  255; 0; 0; 255;  0; 0; 0; 0;
     255; 0; 0; 255;  0; 0; 255; 255;  0; 0; 255; 255]
    12 (mkRectangle (mkPoint 1 1) (mkPoint 4 3)).


(** A shape that sets the even-odd rule, draws a square and fills it. *)
Definition evenOddSquare : list GraphicsContext.Call :=
  [GraphicsContext.SetFillRuleEvenOdd;
   GraphicsContext.DrawRectangle 0 0 10 10;
   GraphicsContext.SetColor (Some red);
   GraphicsContext.Fill].

(** A shape that builds a path and returns without [Fill] or [Stroke]. *)
Definition openTriangle : list GraphicsContext.Call :=
  [GraphicsContext.SetColor (Some blue);
   GraphicsContext.MoveTo 0 0;
   GraphicsContext.LineTo 10 0;
   GraphicsContext.LineTo 5 (17 # 2);
   GraphicsContext.ClosePath].

(** A white 1x1 [*image.RGBA] whose bounds start at (1, 1), and the same
    pixel with bounds that start at the origin. *)
Definition whiteAt11 : Image :=
  RGBAImage [255; 255; 255; 255] 4 (mkRectangle (mkPoint 1 1) (mkPoint 2 2)).

Definition whiteAt00 : Image :=
  RGBAImage [255; 255; 255; 255] 4 (mkRectangle (mkPoint 0 0) (mkPoint 1 1)).

(** One way to fill in the functions that the encoders take from the
    rest of the package: the block width is the configured one (20 outside 1..255), a
    set module is black and an unset one white, the halftone sample is the
    pixel of the halftone image, no logo is accepted, the shape is the
    configured one and scaling leaves the image as it is. *)
Definition samplePackage : Package :=
  mkPackage
    (fun oo => if (qrWidth oo <=? 0) || (qrWidth oo >? 255) then 20 else qrWidth oo)
    (fun _ v => if IsSet v then mkColor16 0 0 0 65535 else white)
    (fun img _ x y => At16 img x y)
    (fun _ _ _ => 0)
    (fun _ _ _ _ _ _ _ _ _ => false)
    (fun _ _ _ _ _ => false)
    shape
    (fun img _ => img).

(** A halftone image, already binarized: black on the left column of
    every module's 3x3 grid, white elsewhere. *)
Definition sampleHalftone : Image :=
  GrayImage (mkGray (fun x _ => if x mod 3 =? 0 then 0 else 255)
               (mkRectangle (mkPoint 0 0) (mkPoint 63 63))).

(** An all-white halftone image. *)
Definition whiteHalftone : Image :=
  GrayImage (mkGray (fun _ _ => 255) (mkRectangle (mkPoint 0 0) (mkPoint 63 63))).

(** Options with a halftone source, a block width of 9 and the borders
    [top = 10, right = 20, bottom = 30, left = 40]. *)
Definition sampleOptions : outputImageOptions :=
  WithBorderWidth 20 [10; 20; 30; 40]
    (mkOptions (0, 0, 0, 0) 9 None false 5 None (Some sampleHalftone) false
       _shapeRectangle).

(** A 21x21 matrix of DATA modules, set on a checkerboard. *)
Definition sampleMatrix : Matrix :=
  mkMatrix 21 21 (fun x y => mkQRValue QRType_DATA (Z.even (x + y))).
Example greedy_sample :
  Greedy.optimizeRectangles sampleImage (Bounds sampleImage)
  = Some [mkRectInfo 0 0 2 2 255 0 0 255; mkRectInfo 3 2 1 1 0 0 255 255].
Proof. vm_compute. reflexivity. Qed.

Example fourphase_sample :
  FourPhase.oldOptimizeRectangles insertionSort sampleImage (Bounds sampleImage)
  = Some [mkRectInfo 0 0 2 2 255 0 0 255; mkRectInfo 3 2 1 1 0 0 255 255].
Proof. vm_compute. reflexivity. Qed.

Example greedy_sample2 :
  Greedy.optimizeRectangles sampleImage2 (Bounds sampleImage2)
  = Some [mkRectInfo 0 0 4 3 255 0 0 255; mkRectInfo 4 0 1 1 0 0 255 255;
          mkRectInfo 4 2 1 2 0 0 255 255; mkRectInfo 0 3 4 1 0 0 255 255].
Proof. vm_compute. reflexivity. Qed.

Example fourphase_sample2 :
  FourPhase.oldOptimizeRectangles insertionSort sampleImage2 (Bounds sampleImage2)
  = Some [mkRectInfo 0 0 3 3 255 0 0 255; mkRectInfo 0 3 5 1 0 0 255 255;
          mkRectInfo 3 0 1 3 255 0 0 255; mkRectInfo 4 0 1 1 0 0 255 255;
          mkRectInfo 4 2 1 1 0 0 255 255].
Proof. vm_compute. reflexivity. Qed.

Example greedy_sampleRGBA :
  Greedy.optimizeRectangles sampleRGBA (Bounds sampleRGBA)
  = Some [mkRectInfo 1 1 2 1 255 0 0 255; mkRectInfo 1 2 1 1 255 0 0 255;
          mkRectInfo 2 2 2 1 0 0 255 255].
Proof. vm_compute. reflexivity. Qed.

(** An [*image.RGBA] whose [Pix] is too short for its bounds: the fast
    path of [getPixel] indexes past the end and the function panics. *)
Example greedy_short_Pix :
  Greedy.optimizeRectangles
    (RGBAImage [255; 0; 0; 255] 8 (mkRectangle (mkPoint 0 0) (mkPoint 2 1)))
    (mkRectangle (mkPoint 0 0) (mkPoint 2 1))
  = None.
Proof. vm_compute. reflexivity. Qed.

(** * Properties *)

(** ** Loops and slices *)

(** The rule for [forZ]: an invariant [Inv] of the loop counter and the
    state that every iteration keeps (or that gives [Post] at a [break]),
    with a bound [hi] on the counter so that the fuel is enough. *)
Lemma forZ_rule {S : Type} (Inv : Z -> S -> Prop) (Post : S -> Prop)
  (cond : Z -> bool) (step : Z) (body : Z -> S -> option (ctl S)) (hi : Z) :
  0 < step ->
  (forall i s, Inv i s -> cond i = true ->
     i < hi /\
     match body i s with
     | Some (Continue s') => Inv (i + step) s'
     | Some (Break s') => Post s'
     | None => False
     end) ->
  (forall i s, Inv i s -> cond i = false -> Post s) ->
  forall fuel i s,
    Inv i s -> (Z.to_nat (hi - i) < fuel)%nat ->
    exists s', forZ fuel i cond step body s = Some s' /\ Post s'.
Proof.
  intros Hstep Hbody Hexit fuel.
  induction fuel as [|k IH]; intros i s HI Hfuel; [lia|].
  simpl. destruct (cond i) eqn:Hc.
  - destruct (Hbody i s HI Hc) as [Hlt Hb].
    destruct (body i s) as [[s'|s']|]; [|eauto|contradiction].
    apply IH; [exact Hb|lia].
  - eauto.
Qed.

Lemma loopFuel_enough (lo hi : Z) : (Z.to_nat (hi - lo) < loopFuel lo hi)%nat.
Proof. unfold loopFuel. lia. Qed.

Lemma set_nth_Some {A : Type} (s : list A) (n : nat) (v : A) :
  (n < length s)%nat ->
  exists s', set_nth s n v = Some s' /\ length s' = length s /\
    forall m d, nth m s' d = if Nat.eqb m n then v else nth m s d.
Proof.
  revert n. induction s as [|a t IH]; intros n Hn; simpl in Hn; [lia|].
  destruct n as [|n'].
  - exists (v :: t). simpl. repeat split. intros [|m] d; reflexivity.
  - destruct (IH n') as (t' & Ht & Hlen & Hnth); [lia|].
    exists (a :: t'). simpl. rewrite Ht. repeat split; [simpl; lia|].
    intros [|m] d; simpl; [reflexivity|apply Hnth].
Qed.

Lemma index_in_range {A : Type} (s : list A) (i : Z) (d : A) :
  0 <= i < Z.of_nat (length s) ->
  index s i = Some (nth (Z.to_nat i) s d).
Proof.
  intros Hi. unfold index.
  destruct (Z.ltb_spec i 0); [lia|].
  apply nth_error_nth'. lia.
Qed.

Lemma assign_in_range {A : Type} (s : list A) (i : Z) (v : A) :
  0 <= i < Z.of_nat (length s) ->
  exists s', assign s i v = Some s' /\ length s' = length s /\
    forall j d, 0 <= j ->
      nth (Z.to_nat j) s' d = if j =? i then v else nth (Z.to_nat j) s d.
Proof.
  intros Hi. unfold assign.
  destruct (Z.ltb_spec i 0); [lia|].
  destruct (set_nth_Some s (Z.to_nat i) v) as (s' & Hs & Hlen & Hnth); [lia|].
  exists s'. repeat split; [exact Hs|exact Hlen|].
  intros j d Hj. rewrite Hnth.
  destruct (Z.eqb_spec j i) as [->|Hne].
  - now rewrite Nat.eqb_refl.
  - destruct (Nat.eqb_spec (Z.to_nat j) (Z.to_nat i)); [lia|reflexivity].
Qed.

Lemma differs_false (n p : Pixel) : differs n p = false -> n = p.
Proof.
  destruct n as [[[nr ng] nb] na], p as [[[r g] b] a]. unfold differs.
  intros H.
  repeat (apply orb_false_elim in H; destruct H as [H ?]).
  repeat match goal with
         | E : negb (_ =? _) = false |- _ =>
             apply negb_false_iff, Z.eqb_eq in E
         end.
  congruence.
Qed.

Lemma differs_refl (p : Pixel) : differs p p = false.
Proof.
  destruct p as [[[r g] b] a]. unfold differs.
  now rewrite !Z.eqb_refl.
Qed.

Lemma rectColor_rectOf (x y w h : Z) (p : Pixel) : rectColor (rectOf x y w h p) = p.
Proof. destruct p as [[[r g] b] a]. reflexivity. Qed.

(** ** The [visited] slice *)

Lemma PointIn_iff (b : Rectangle) (x y : Z) :
  PointIn x y b = true <->
  (X (Min b) <= x < X (Max b) /\ Y (Min b) <= y < Y (Max b)).
Proof.
  unfold PointIn. rewrite !andb_true_iff, !Z.leb_le, !Z.ltb_lt. lia.
Qed.

Lemma coversb_iff (r : rectInfo) (x y : Z) : coversb r x y = true <-> covers r x y.
Proof.
  unfold coversb, covers. rewrite !andb_true_iff, !Z.leb_le, !Z.ltb_lt. lia.
Qed.

Section VisitedFacts.
Variable bounds : Rectangle.

Lemma getIndex_range (x y : Z) :
  PointIn x y bounds = true ->
  0 <= getIndex bounds x y < Dx bounds * Dy bounds.
Proof.
  rewrite PointIn_iff. unfold getIndex, Dx, Dy. intros [Hx Hy]. nia.
Qed.

Lemma getIndex_inj (x y x' y' : Z) :
  PointIn x y bounds = true -> PointIn x' y' bounds = true ->
  getIndex bounds x y = getIndex bounds x' y' -> x = x' /\ y = y'.
Proof.
  rewrite !PointIn_iff. unfold getIndex, Dx. intros [Hx Hy] [Hx' Hy'] E.
  assert (y = y') by nia. subst y'. split; [lia|reflexivity].
Qed.

Lemma index_visited (visited : list bool) (x y : Z) :
  sized bounds visited -> PointIn x y bounds = true ->
  index visited (getIndex bounds x y) = Some (visitedAt bounds visited x y).
Proof.
  intros Hs Hin. apply index_in_range.
  unfold sized in Hs. rewrite Hs. now apply getIndex_range.
Qed.

Lemma assign_visited (visited : list bool) (x y : Z) :
  sized bounds visited -> PointIn x y bounds = true ->
  exists visited',
    assign visited (getIndex bounds x y) true = Some visited' /\
    sized bounds visited' /\
    forall x' y', PointIn x' y' bounds = true ->
      (visitedAt bounds visited' x' y' = true <->
       visitedAt bounds visited x' y' = true \/ (x' = x /\ y' = y)).
Proof.
  intros Hs Hin.
  destruct (assign_in_range visited (getIndex bounds x y) true)
    as (v' & Hv & Hlen & Hnth).
  { unfold sized in Hs. rewrite Hs. now apply getIndex_range. }
  exists v'. split; [exact Hv|]. split; [unfold sized in *; congruence|].
  intros x' y' Hin'. unfold visitedAt.
  rewrite Hnth by (apply getIndex_range; exact Hin').
  destruct (Z.eqb_spec (getIndex bounds x' y') (getIndex bounds x y)) as [E|NE].
  - apply getIndex_inj in E; auto. tauto.
  - split; [tauto|]. intros [H|[-> ->]]; [exact H|congruence].
Qed.

End VisitedFacts.

Lemma covers_rectOf (x y w h : Z) (p : Pixel) (x' y' : Z) :
  covers (rectOf x y w h p) x' y' <-> (x <= x' < x + w /\ y <= y' < y + h).
Proof. destruct p as [[[r g] b] a]. unfold covers. simpl. tauto. Qed.

Lemma nth_error_snoc {A : Type} (l : list A) (a b : A) (i : nat) :
  nth_error (l ++ [a]) i = Some b ->
  (i < length l)%nat /\ nth_error l i = Some b \/ i = length l /\ b = a.
Proof.
  intros H. destruct (Nat.lt_ge_cases i (length l)) as [Hlt|Hge].
  - left. split; [exact Hlt|]. now rewrite nth_error_app1 in H.
  - right. rewrite nth_error_app2 in H by exact Hge.
    destruct (i - length l)%nat as [|n] eqn:E; simpl in H.
    + split; [lia|congruence].
    + destruct n; discriminate.
Qed.

Lemma pairwise_disjoint_snoc (rects : list rectInfo) (r' : rectInfo) :
  pairwise_disjoint rects ->
  (forall r x y, In r rects -> ~ (covers r x y /\ covers r' x y)) ->
  pairwise_disjoint (rects ++ [r']).
Proof.
  intros Hd Hnew i j r1 r2 Hi Hj Hij x y [H1 H2].
  apply nth_error_snoc in Hi, Hj.
  destruct Hi as [[Hil Hi]|[-> ->]], Hj as [[Hjl Hj]|[-> ->]].
  - exact (Hd i j r1 r2 Hi Hj Hij x y (conj H1 H2)).
  - apply nth_error_In in Hi. exact (Hnew r1 x y Hi (conj H1 H2)).
  - apply nth_error_In in Hj. exact (Hnew r2 x y Hj (conj H2 H1)).
  - congruence.
Qed.

(** Re-painting: the color of a pixel that no rectangle covers is the
    canvas color; the color of a covered pixel is the color that all the
    rectangles covering it agree on. *)
Lemma paint_uncovered (rects : list rectInfo) (c : Canvas) (x y : Z) :
  (forall r, In r rects -> ~ covers r x y) ->
  fold_left paintRect rects c x y = c x y.
Proof.
  revert c. induction rects as [|a l IH]; intros c Hno; simpl; [reflexivity|].
  rewrite IH by (intros r Hr; apply Hno; now right).
  unfold paintRect. destruct (coversb a x y) eqn:E; [|reflexivity].
  apply coversb_iff in E. exfalso. apply (Hno a); [now left|exact E].
Qed.

Lemma paint_covered (rects : list rectInfo) (c : Canvas) (x y : Z) (p : Pixel) :
  (exists r, In r rects /\ covers r x y) ->
  (forall r, In r rects -> covers r x y -> rectColor r = p) ->
  fold_left paintRect rects c x y = p.
Proof.
  induction rects as [|a l IH] using rev_ind; intros (r & Hr & Hc) Hcol.
  - destruct Hr.
  - rewrite fold_left_app. simpl. unfold paintRect at 1.
    destruct (coversb a x y) eqn:E.
    + apply coversb_iff in E. apply Hcol; [apply in_or_app; right; now left|exact E].
    + apply IH.
      * apply in_app_or in Hr. destruct Hr as [Hr|[<-|[]]]; [eauto|].
        apply coversb_iff in Hc. congruence.
      * intros r' Hr'. apply Hcol. apply in_or_app. now left.
Qed.

Lemma solidRect_rectOf (px : Z -> Z -> Pixel) (bounds : Rectangle)
  (x y w h : Z) (p : Pixel) :
  1 <= w -> 1 <= h ->
  X (Min bounds) <= x -> x + w <= X (Max bounds) ->
  Y (Min bounds) <= y -> y + h <= Y (Max bounds) ->
  isBackground p = false ->
  (forall x' y', x <= x' < x + w /\ y <= y' < y + h -> px x' y' = p) ->
  solidRect px bounds (rectOf x y w h p).
Proof.
  intros Hw Hh Hx0 Hx1 Hy0 Hy1 Hfg Hcol.
  pose proof (covers_rectOf x y w h p) as Hcov.
  pose proof (rectColor_rectOf x y w h p) as Hrc.
  destruct p as [[[cr cg] cb] ca].
  constructor; try (simpl; lia).
  - rewrite Hrc. exact Hfg.
  - intros x' y' Hc. rewrite Hrc. apply Hcol. apply Hcov. exact Hc.
Qed.

(** ** Greedy meshing *)

(** Inside readable bounds [getPixel] does not panic. *)
Lemma getPixel_readable (img : Image) (bounds : Rectangle) (x y : Z) :
  readable img bounds -> PointIn x y bounds = true ->
  Greedy.getPixel img x y = Some (pixelAt img x y).
Proof.
  intros Hread Hin.
  assert (H : exists p, Greedy.getPixel img x y = Some p).
  { destruct img as [Pix Stride Rect|g|at16 b]; [|eexists; reflexivity..].
    destruct (Hread x y Hin) as [H0 H3]. unfold Greedy.getPixel.
    set (offset := (y - Y (Min Rect)) * Stride + (x - X (Min Rect)) * 4) in *.
    rewrite (index_in_range Pix offset 0), (index_in_range Pix (offset + 1) 0),
      (index_in_range Pix (offset + 2) 0), (index_in_range Pix (offset + 3) 0) by lia.
    eexists. reflexivity. }
  destruct H as [p Hp]. unfold pixelAt. now rewrite Hp.
Qed.

Module GreedyFacts.
Section GreedyFacts.
Variable img : Image.
Variable bounds : Rectangle.

(** The pixels of [bounds] can be read, and [px] is what is read. *)
Variable px : Z -> Z -> Pixel.
Hypothesis getPixel_in :
  forall x y, PointIn x y bounds = true -> Greedy.getPixel img x y = Some (px x y).

Local Abbreviation vis := (visitedAt bounds).

Lemma isVisited_in (v : list bool) (x y : Z) :
  sized bounds v -> PointIn x y bounds = true ->
  Greedy.isVisited bounds v x y = Some (vis v x y).
Proof. intros Hs Hin. now apply index_visited. Qed.

(** [markVisited] sets exactly the entries of the [w] by [h] block at
    [(x, y)]. *)
Lemma markVisited_spec (v : list bool) (x y w h : Z) :
  sized bounds v ->
  0 <= w -> 0 <= h ->
  X (Min bounds) <= x -> x + w <= X (Max bounds) ->
  Y (Min bounds) <= y -> y + h <= Y (Max bounds) ->
  exists v',
    Greedy.markVisited bounds v x y w h = Some v' /\
    sized bounds v' /\
    forall x' y', PointIn x' y' bounds = true ->
      (vis v' x' y' = true <->
       vis v x' y' = true \/ (x <= x' < x + w /\ y <= y' < y + h)).
Proof.
  intros Hs Hw Hh Hx0 Hx1 Hy0 Hy1. unfold Greedy.markVisited.
  apply forZ_rule with
    (hi := h)
    (Inv := fun dy v' =>
       0 <= dy <= h /\ sized bounds v' /\
       forall x' y', PointIn x' y' bounds = true ->
         (vis v' x' y' = true <->
          vis v x' y' = true \/ (x <= x' < x + w /\ y <= y' < y + dy)));
    try lia; try apply loopFuel_enough.
  - (* one row *)
    intros dy v1 (Hdy & Hs1 & Hv1) Hc. apply Z.ltb_lt in Hc. split; [lia|].
    destruct (forZ_rule
      (fun dx v2 =>
         0 <= dx <= w /\ sized bounds v2 /\
         forall x' y', PointIn x' y' bounds = true ->
           (vis v2 x' y' = true <->
            vis v1 x' y' = true \/ (x <= x' < x + dx /\ y' = y + dy)))
      (fun v2 =>
         sized bounds v2 /\
         forall x' y', PointIn x' y' bounds = true ->
           (vis v2 x' y' = true <->
            vis v1 x' y' = true \/ (x <= x' < x + w /\ y' = y + dy)))
      (fun dx => dx <? w) 1
      (fun dx visited =>
         do visited' <-
           assign visited ((y - Y (Min bounds) + dy) * Dx bounds
                           + (x - X (Min bounds)) + dx) true;
         Some (Continue visited'))
      w ltac:(lia)) with (fuel := loopFuel 0 w) (i := 0) (s := v1)
      as (v2 & Hrun & Hs2 & Hv2).
    + intros dx v2 (Hdx & Hs2 & Hv2) Hcx. apply Z.ltb_lt in Hcx. split; [lia|].
      replace ((y - Y (Min bounds) + dy) * Dx bounds + (x - X (Min bounds)) + dx)
        with (getIndex bounds (x + dx) (y + dy)) by (unfold getIndex; ring).
      destruct (assign_visited bounds v2 (x + dx) (y + dy) Hs2)
        as (v3 & Ha & Hs3 & Hv3).
      { apply PointIn_iff. lia. }
      rewrite Ha. split; [lia|]. split; [exact Hs3|].
      intros x' y' Hin. rewrite (Hv3 x' y' Hin), (Hv2 x' y' Hin). intuition lia.
    + intros dx v2 (Hdx & Hs2 & Hv2) Hcx. apply Z.ltb_ge in Hcx.
      split; [exact Hs2|].
      intros x' y' Hin. rewrite (Hv2 x' y' Hin). intuition lia.
    + split; [lia|]. split; [exact Hs1|]. intros x' y' Hin. intuition lia.
    + apply loopFuel_enough.
    + cbv zeta. rewrite Hrun. split; [lia|]. split; [exact Hs2|].
      intros x' y' Hin. rewrite (Hv2 x' y' Hin), (Hv1 x' y' Hin). intuition lia.
  - (* after the last row *)
    intros dy v1 (Hdy & Hs1 & Hv1) Hc. apply Z.ltb_ge in Hc.
    split; [exact Hs1|].
    intros x' y' Hin. rewrite (Hv1 x' y' Hin). intuition lia.
  - split; [lia|]. split; [exact Hs|]. intros x' y' Hin. intuition lia.
Qed.

(** The horizontal expansion returns a width whose columns, in row [y],
    are all unvisited and of the color [p]. *)
Lemma expandRight_spec (v : list bool) (x y : Z) (p : Pixel) :
  sized bounds v -> PointIn x y bounds = true ->
  forall fuel w,
    1 <= w -> x + w <= X (Max bounds) ->
    (Z.to_nat (X (Max bounds) - (x + w)) < fuel)%nat ->
    (forall k, 0 <= k < w -> vis v (x + k) y = false /\ px (x + k) y = p) ->
    exists w',
      Greedy.expandRight img bounds fuel v x y p w = Some w' /\
      w <= w' /\ x + w' <= X (Max bounds) /\
      forall k, 0 <= k < w' -> vis v (x + k) y = false /\ px (x + k) y = p.
Proof.
  intros Hs Hin. apply PointIn_iff in Hin.
  induction fuel as [|f IH]; intros w Hw Hmax Hfuel Hrun; [lia|].
  simpl. destruct (Z.ltb_spec (x + w) (X (Max bounds))) as [Hlt|Hge].
  - rewrite isVisited_in by (auto; apply PointIn_iff; lia).
    destruct (vis v (x + w) y) eqn:Hv.
    { exists w. repeat split; try lia; apply Hrun; lia. }
    rewrite getPixel_in by (apply PointIn_iff; lia).
    destruct (differs (px (x + w) y) p) eqn:Hd.
    { exists w. repeat split; try lia; apply Hrun; lia. }
    apply differs_false in Hd.
    destruct (IH (w + 1)) as (w' & Hw' & Hle & Hmax' & Hrun'); try lia.
    + intros k Hk. destruct (Z.eq_dec k w) as [->|]; [auto|apply Hrun; lia].
    + exists w'. repeat split; try lia; try apply Hrun'; auto.
  - exists w. repeat split; try lia; apply Hrun; lia.
Qed.

(** [matchRow] is true only if the [w] pixels of row [y + h] are all
    unvisited and of the color [p]. *)
Lemma matchRow_spec (v : list bool) (x y : Z) (p : Pixel) (w h : Z) :
  sized bounds v ->
  X (Min bounds) <= x -> x + w <= X (Max bounds) ->
  Y (Min bounds) <= y + h < Y (Max bounds) ->
  exists m,
    Greedy.matchRow img bounds v x y p w h = Some m /\
    (m = true ->
     forall k, 0 <= k < w -> vis v (x + k) (y + h) = false /\ px (x + k) (y + h) = p).
Proof.
  intros Hs Hx0 Hx1 Hy. unfold Greedy.matchRow.
  apply forZ_rule with
    (hi := w)
    (Inv := fun k (m : bool) =>
       0 <= k /\
       forall k', 0 <= k' < k ->
         vis v (x + k') (y + h) = false /\ px (x + k') (y + h) = p);
    try lia; try apply loopFuel_enough.
  - intros k m (Hk & Hrun) Hc. apply Z.ltb_lt in Hc. split; [lia|].
    rewrite isVisited_in by (auto; apply PointIn_iff; lia).
    destruct (vis v (x + k) (y + h)) eqn:Hv; [discriminate|].
    rewrite getPixel_in by (apply PointIn_iff; lia).
    destruct (differs (px (x + k) (y + h)) p) eqn:Hd; [discriminate|].
    apply differs_false in Hd. split; [lia|].
    intros k' Hk'. destruct (Z.eq_dec k' k) as [->|]; [auto|apply Hrun; lia].
  - intros k m (Hk & Hrun) Hc. apply Z.ltb_ge in Hc.
    intros _ k' Hk'. apply Hrun. lia.
  - split; [lia|]. intros k' Hk'. lia.
Qed.

(** The vertical expansion returns a height such that the whole [w] by
    [h'] block is unvisited and of the color [p]. *)
Lemma expandDown_spec (v : list bool) (x y : Z) (p : Pixel) (w : Z) :
  sized bounds v -> PointIn x y bounds = true -> x + w <= X (Max bounds) ->
  forall fuel h,
    1 <= h -> y + h <= Y (Max bounds) ->
    (Z.to_nat (Y (Max bounds) - (y + h)) < fuel)%nat ->
    (forall j k, 0 <= j < h -> 0 <= k < w ->
       vis v (x + k) (y + j) = false /\ px (x + k) (y + j) = p) ->
    exists h',
      Greedy.expandDown img bounds fuel v x y p w h = Some h' /\
      h <= h' /\ y + h' <= Y (Max bounds) /\
      forall j k, 0 <= j < h' -> 0 <= k < w ->
        vis v (x + k) (y + j) = false /\ px (x + k) (y + j) = p.
Proof.
  intros Hs Hin Hx1. apply PointIn_iff in Hin.
  induction fuel as [|f IH]; intros h Hh Hmax Hfuel Hrun; [lia|].
  simpl. destruct (Z.ltb_spec (y + h) (Y (Max bounds))) as [Hlt|Hge].
  - destruct (matchRow_spec v x y p w h Hs) as (m & Hm & Hrow); try lia.
    rewrite Hm. destruct m; simpl.
    + destruct (IH (h + 1)) as (h' & Hh' & Hle & Hmax' & Hrun'); try lia.
      * intros j k Hj Hk.
        destruct (Z.eq_dec j h) as [->|]; [now apply Hrow|apply Hrun; lia].
      * exists h'. repeat split; try lia; try apply Hrun'; auto.
    + exists h. repeat split; try lia; apply Hrun; lia.
  - exists h. repeat split; try lia; apply Hrun; lia.
Qed.

(** One step of the scan keeps the state consistent and moves the scan
    front past [(x, y)]. *)
Lemma scanPixel_spec (v : list bool) (rects : list rectInfo) (x y : Z) :
  scanState px bounds v rects -> scannedBefore px bounds v x y ->
  PointIn x y bounds = true ->
  exists v' rects',
    Greedy.scanPixel img bounds x y (v, rects) = Some (Continue (v', rects')) /\
    scanState px bounds v' rects' /\ scannedBefore px bounds v' (x + 1) y.
Proof.
  intros Hst Hbefore Hin. pose proof Hin as Hxy. apply PointIn_iff in Hxy.
  destruct Hst as [Hs Hvis Hsolid Hdisj].
  unfold Greedy.scanPixel. rewrite isVisited_in by auto.
  destruct (vis v x y) eqn:Hv.
  { exists v, rects. split; [reflexivity|]. split; [now constructor|].
    intros x' y' Hin' Hpos Hfg.
    destruct (Z.eq_dec y' y) as [->|]; [|apply Hbefore; auto; lia].
    destruct (Z.eq_dec x' x) as [->|]; [exact Hv|apply Hbefore; auto; lia]. }
  rewrite getPixel_in by exact Hin.
  destruct (isBackground (px x y)) eqn:Hbg.
  { exists v, rects. split; [reflexivity|]. split; [now constructor|].
    intros x' y' Hin' Hpos Hfg.
    destruct (Z.eq_dec y' y) as [->|]; [|apply Hbefore; auto; lia].
    destruct (Z.eq_dec x' x) as [->|]; [congruence|apply Hbefore; auto; lia]. }
  destruct (expandRight_spec v x y (px x y) Hs Hin
              (loopFuel x (X (Max bounds))) 1)
    as (w & Hw & Hw1 & Hwmax & Hrow); try lia.
  { unfold loopFuel. lia. }
  { intros k Hk. replace k with 0 by lia. rewrite Z.add_0_r. auto. }
  rewrite Hw.
  destruct (expandDown_spec v x y (px x y) w Hs Hin Hwmax
              (loopFuel y (Y (Max bounds))) 1)
    as (h & Hh & Hh1 & Hhmax & Hblock); try lia.
  { unfold loopFuel. lia. }
  { intros j k Hj Hk. replace j with 0 by lia. rewrite Z.add_0_r. now apply Hrow. }
  rewrite Hh.
  destruct (markVisited_spec v x y w h Hs) as (v' & Hmark & Hs' & Hvis'); try lia.
  rewrite Hmark.
  exists v', (rects ++ [rectOf x y w h (px x y)]). split; [reflexivity|].
  assert (Hblock' : forall x' y', x <= x' < x + w /\ y <= y' < y + h ->
            vis v x' y' = false /\ px x' y' = px x y).
  { intros x' y' Hc.
    replace x' with (x + (x' - x)) by ring. replace y' with (y + (y' - y)) by ring.
    apply Hblock; lia. }
  split; [constructor|].
  - exact Hs'.
  - intros x' y' Hin'. rewrite (Hvis' x' y' Hin'), (Hvis x' y' Hin').
    rewrite <- (covers_rectOf x y w h (px x y)). split.
    + intros [(r & Hr & Hc)|Hc].
      * exists r. split; [apply in_or_app; now left|exact Hc].
      * eexists. split; [apply in_or_app; right; now left|exact Hc].
    + intros (r & Hr & Hc). apply in_app_or in Hr.
      destruct Hr as [Hr|[<-|[]]]; [left; eauto|right; exact Hc].
  - intros r Hr. apply in_app_or in Hr. destruct Hr as [Hr|[<-|[]]]; [auto|].
    apply solidRect_rectOf; try lia; [exact Hbg|].
    intros x' y' Hc. now apply Hblock'.
  - apply pairwise_disjoint_snoc; [exact Hdisj|].
    intros r x' y' Hr [Hc1 Hc2]. apply covers_rectOf in Hc2.
    destruct (Hblock' x' y' Hc2) as [Hunv _].
    assert (Hin' : PointIn x' y' bounds = true) by (apply PointIn_iff; lia).
    assert (vis v x' y' = true) by (apply Hvis; eauto).
    congruence.
  - intros x' y' Hin' Hpos Hfg. apply Hvis'; [exact Hin'|].
    destruct (Z.eq_dec y' y) as [->|]; [|left; apply Hbefore; auto; lia].
    destruct (Z.eq_dec x' x) as [->|]; [right; lia|left; apply Hbefore; auto; lia].
Qed.

(** The whole scan: it returns, in a consistent state, with the scan
    front past the last row. *)
Lemma optimizeRectangles_scan :
  wellFormed bounds ->
  exists v rects,
    Greedy.optimizeRectangles img bounds = Some rects /\
    scanState px bounds v rects /\
    scannedBefore px bounds v (X (Min bounds)) (Y (Max bounds)).
Proof.
  intros [Hwx Hwy]. unfold Greedy.optimizeRectangles, make_bools.
  assert (Hnn : 0 <= Dx bounds * Dy bounds) by (unfold Dx, Dy; nia).
  destruct (Z.ltb_spec (Dx bounds * Dy bounds) 0) as [|_]; [lia|].
  set (v0 := repeat false (Z.to_nat (Dx bounds * Dy bounds))).
  assert (Hv0 : forall x y, vis v0 x y = false).
  { intros x y. unfold visitedAt, v0. apply nth_repeat. }
  destruct (forZ_rule
    (fun y (st : list bool * list rectInfo) =>
       Y (Min bounds) <= y <= Y (Max bounds) /\
       scanState px bounds (fst st) (snd st) /\
       scannedBefore px bounds (fst st) (X (Min bounds)) y)
    (fun st =>
       scanState px bounds (fst st) (snd st) /\
       scannedBefore px bounds (fst st) (X (Min bounds)) (Y (Max bounds)))
    (fun y => y <? Y (Max bounds)) 1
    (fun y st =>
       do st' <-
         forZ (loopFuel (X (Min bounds)) (X (Max bounds))) (X (Min bounds))
           (fun x => x <? X (Max bounds)) 1
           (fun x st => Greedy.scanPixel img bounds x y st) st;
       Some (Continue st'))
    (Y (Max bounds)) ltac:(lia))
    with (fuel := loopFuel (Y (Min bounds)) (Y (Max bounds)))
         (i := Y (Min bounds)) (s := (v0, @nil rectInfo))
    as (st & Hrun & Hst & Hall).
  - (* one row *)
    intros y st (Hy & Hst & Hbefore) Hc. apply Z.ltb_lt in Hc. split; [lia|].
    destruct (forZ_rule
      (fun x (st : list bool * list rectInfo) =>
         X (Min bounds) <= x <= X (Max bounds) /\
         scanState px bounds (fst st) (snd st) /\
         scannedBefore px bounds (fst st) x y)
      (fun st =>
         scanState px bounds (fst st) (snd st) /\
         scannedBefore px bounds (fst st) (X (Max bounds)) y)
      (fun x => x <? X (Max bounds)) 1
      (fun x st => Greedy.scanPixel img bounds x y st)
      (X (Max bounds)) ltac:(lia))
      with (fuel := loopFuel (X (Min bounds)) (X (Max bounds)))
           (i := X (Min bounds)) (s := st)
      as (st' & Hrow & Hst' & Hbefore').
    + intros x [v rects] (Hx & Hs1 & Hb1) Hcx. apply Z.ltb_lt in Hcx.
      split; [lia|]. simpl in Hs1, Hb1.
      destruct (scanPixel_spec v rects x y Hs1 Hb1) as (v' & rects' & E & Hs2 & Hb2).
      { apply PointIn_iff. lia. }
      rewrite E. simpl. split; [lia|]. split; assumption.
    + intros x st1 (Hx & Hs1 & Hb1) Hcx. apply Z.ltb_ge in Hcx.
      replace (X (Max bounds)) with x by lia. split; assumption.
    + split; [lia|]. split; assumption.
    + apply loopFuel_enough.
    + rewrite Hrow. split; [lia|]. split; [exact Hst'|].
      intros x' y' Hin' Hpos Hfg. apply Hbefore'; auto.
      apply PointIn_iff in Hin'. lia.
  - intros y st (Hy & Hst & Hbefore) Hc. apply Z.ltb_ge in Hc.
    replace (Y (Max bounds)) with y by lia. split; assumption.
  - split; [lia|]. simpl. split.
    + constructor.
      * unfold sized, v0. rewrite repeat_length. lia.
      * intros x y _. rewrite Hv0. split; [discriminate|]. now intros (r & [] & _).
      * intros r [].
      * intros [|i] j r1 r2 Hi; discriminate.
    + intros x y Hin Hpos. apply PointIn_iff in Hin. lia.
  - apply loopFuel_enough.
  - destruct st as [v rects]. exists v, rects.
    fold v0. rewrite Hrun. split; [reflexivity|]. split; assumption.
Qed.

End GreedyFacts.
End GreedyFacts.

(** ** Color maps *)

Lemma colored_app (l1 l2 : list rectInfo) (x y : Z) (c : Pixel) :
  colored (l1 ++ l2) x y c <-> colored l1 x y c \/ colored l2 x y c.
Proof.
  unfold colored. split.
  - intros (r & Hr & H). apply in_app_or in Hr. destruct Hr; eauto.
  - intros [(r & Hr & H)|(r & Hr & H)]; exists r; (split; [apply in_or_app|]); auto.
Qed.

Lemma colored_single (r : rectInfo) (x y : Z) (c : Pixel) :
  colored [r] x y c <-> covers r x y /\ rectColor r = c.
Proof.
  unfold colored. split.
  - intros (r' & [<-|[]] & H). exact H.
  - intros H. exists r. split; [now left|exact H].
Qed.

Lemma sameColorMap_refl (l : list rectInfo) : sameColorMap l l.
Proof. intros x y c. tauto. Qed.

Lemma sameColorMap_trans (l1 l2 l3 : list rectInfo) :
  sameColorMap l1 l2 -> sameColorMap l2 l3 -> sameColorMap l1 l3.
Proof. intros H1 H2 x y c. rewrite (H1 x y c). apply H2. Qed.

Lemma sameColorMap_sym (l1 l2 : list rectInfo) :
  sameColorMap l1 l2 -> sameColorMap l2 l1.
Proof. intros H x y c. symmetry. apply H. Qed.

Lemma sameColorMap_Permutation (l l' : list rectInfo) :
  Permutation l l' -> sameColorMap l l'.
Proof.
  intros HP x y c. unfold colored.
  split; intros (r & Hr & H); exists r; (split; [|exact H]).
  - eapply Permutation_in; eauto.
  - eapply Permutation_in; [apply Permutation_sym|]; eauto.
Qed.

(** The color map of a list of solid rectangles that covers every pixel
    that is not background: it is the image itself, away from the
    background. *)
Lemma solid_cover_colored (px : Z -> Z -> Pixel) (bounds : Rectangle)
  (rects : list rectInfo) :
  (forall r, In r rects -> solidRect px bounds r) ->
  coveredBefore px bounds rects (X (Min bounds)) (Y (Max bounds)) ->
  forall x y c,
    colored rects x y c <->
    (PointIn x y bounds = true /\ isBackground (px x y) = false /\ px x y = c).
Proof.
  intros Hsolid Hall x y c. split.
  - intros (r & Hr & Hc & Hcol). destruct (Hsolid r Hr) as [? ? ? ? ? ? Hfg Hpx].
    rewrite (Hpx x y Hc). repeat split; [|exact Hfg|exact Hcol].
    unfold covers in Hc. apply PointIn_iff. lia.
  - intros (Hin & Hfg & Hcol).
    destruct (Hall x y Hin) as (r & Hr & Hc); [|exact Hfg|].
    { apply PointIn_iff in Hin. lia. }
    exists r. split; [exact Hr|]. split; [exact Hc|].
    rewrite <- Hcol. symmetry. exact (solid_color _ _ _ (Hsolid r Hr) x y Hc).
Qed.

(** The two pixel readers agree inside the bounds of a well-formed
    image: the fast path of [getPixel] reads what [At] and [RGBA] give. *)
Lemma widen_byte (v : Z) :
  0 <= v < 256 -> uint8 (Z.shiftr (widen v) 8) = v.
Proof.
  intros Hv. unfold uint8, widen.
  rewrite Z.shiftr_lor, Z.shiftr_shiftl_l by lia. simpl (8 - 8).
  rewrite Z.shiftl_0_r, Z.shiftr_div_pow2 by lia.
  rewrite Z.div_small by (simpl; lia). simpl.
  apply Z.mod_small. lia.
Qed.

Lemma getPixel_At8 (img : Image) (x y : Z) :
  wellFormedImage img -> PointIn x y (Bounds img) = true ->
  Greedy.getPixel img x y = Some (At8 img x y).
Proof.
  intros (_ & Hread & Hbytes) Hin.
  destruct img as [Pix Stride Rect|g|at16 b]; [|reflexivity|reflexivity].
  simpl in Hin. destruct (Hread x y Hin) as [H0 H3].
  unfold Greedy.getPixel, At8, At16. rewrite Hin. cbv zeta.
  set (offset := (y - Y (Min Rect)) * Stride + (x - X (Min Rect)) * 4) in *.
  rewrite (index_in_range Pix offset 0), (index_in_range Pix (offset + 1) 0),
    (index_in_range Pix (offset + 2) 0), (index_in_range Pix (offset + 3) 0) by lia.
  assert (Hbyte : forall i, 0 <= i < Z.of_nat (length Pix) ->
            0 <= nth (Z.to_nat i) Pix 0 < 256).
  { intros i Hi. rewrite Forall_forall in Hbytes. apply Hbytes, nth_In. lia. }
  unfold pix. cbn [c16_r c16_g c16_b c16_a].
  now rewrite !widen_byte by (apply Hbyte; lia).
Qed.

(** ** The four-phase algorithm *)

Module FourPhaseFacts.
Section FourPhaseFacts.
Variable img : Image.
Variable bounds : Rectangle.

Local Abbreviation px := (At8 img).
Local Abbreviation vis := (visitedAt bounds).

(** PHASE 1. [isUniform] is true only if the nine pixels are unvisited
    and of the color [p]. *)
Lemma isUniform_spec (v : list bool) (x y : Z) (p : Pixel) :
  sized bounds v ->
  X (Min bounds) <= x -> x + 3 <= X (Max bounds) ->
  Y (Min bounds) <= y -> y + 3 <= Y (Max bounds) ->
  exists u,
    FourPhase.isUniform img bounds v x y p = Some u /\
    (u = true ->
     forall x' y', x <= x' < x + 3 /\ y <= y' < y + 3 ->
       vis v x' y' = false /\ px x' y' = p).
Proof.
  intros Hs Hx0 Hx1 Hy0 Hy1. unfold FourPhase.isUniform.
  apply forZ_rule with
    (hi := 3)
    (Inv := fun dy (u : bool) =>
       u = true /\ 0 <= dy /\
       forall x' y', x <= x' < x + 3 /\ y <= y' < y + dy ->
         vis v x' y' = false /\ px x' y' = p);
    try lia; try apply loopFuel_enough.
  - intros dy u (-> & Hdy & Hrows) Hc. apply Z.ltb_lt in Hc. split; [lia|].
    destruct (forZ_rule
      (fun dx (u : bool) =>
         u = true /\ 0 <= dx /\
         forall x', x <= x' < x + dx ->
           vis v x' (y + dy) = false /\ px x' (y + dy) = p)
      (fun u : bool =>
         u = true ->
         forall x', x <= x' < x + 3 ->
           vis v x' (y + dy) = false /\ px x' (y + dy) = p)
      (fun dx => dx <? 3) 1
      (fun dx isUniform =>
         do v0 <- index v (getIndex bounds (x + dx) (y + dy));
         if v0 then Some (Break false)
         else if differs (At8 img (x + dx) (y + dy)) p then Some (Break false)
         else Some (Continue isUniform))
      3 ltac:(lia)) with (fuel := loopFuel 0 3) (i := 0) (s := true)
      as (u' & Hrun & Hrow).
    + intros dx u (-> & Hdx & Hcols) Hcx. apply Z.ltb_lt in Hcx. split; [lia|].
      rewrite (index_visited bounds v _ _ Hs) by (apply PointIn_iff; lia).
      destruct (vis v (x + dx) (y + dy)) eqn:Hv; [discriminate|].
      destruct (differs (px (x + dx) (y + dy)) p) eqn:Hd; [discriminate|].
      apply differs_false in Hd. split; [reflexivity|]. split; [lia|].
      intros x' Hx'. destruct (Z.eq_dec x' (x + dx)) as [->|]; [auto|apply Hcols; lia].
    + intros dx u (-> & Hdx & Hcols) Hcx. apply Z.ltb_ge in Hcx.
      intros _ x' Hx'. apply Hcols. lia.
    + split; [reflexivity|]. split; [lia|]. intros x' Hx'. lia.
    + apply loopFuel_enough.
    + rewrite Hrun. destruct u'; simpl.
      * split; [reflexivity|]. split; [lia|].
        intros x' y' [Hx' Hy'].
        destruct (Z.eq_dec y' (y + dy)) as [->|]; [now apply Hrow|apply Hrows; lia].
      * discriminate.
  - intros dy u (-> & Hdy & Hrows) Hc. apply Z.ltb_ge in Hc.
    intros _ x' y' Hxy. apply Hrows. lia.
  - split; [reflexivity|]. split; [lia|]. intros x' y' Hxy. lia.
Qed.

Lemma markBlock_spec (v : list bool) (x y : Z) :
  sized bounds v ->
  X (Min bounds) <= x -> x + 3 <= X (Max bounds) ->
  Y (Min bounds) <= y -> y + 3 <= Y (Max bounds) ->
  exists v',
    FourPhase.markBlock bounds v x y = Some v' /\
    sized bounds v' /\
    forall x' y', PointIn x' y' bounds = true ->
      (vis v' x' y' = true <->
       vis v x' y' = true \/ (x <= x' < x + 3 /\ y <= y' < y + 3)).
Proof.
  intros Hs Hx0 Hx1 Hy0 Hy1. unfold FourPhase.markBlock.
  apply forZ_rule with
    (hi := 3)
    (Inv := fun dy v' =>
       0 <= dy <= 3 /\ sized bounds v' /\
       forall x' y', PointIn x' y' bounds = true ->
         (vis v' x' y' = true <->
          vis v x' y' = true \/ (x <= x' < x + 3 /\ y <= y' < y + dy)));
    try lia; try apply loopFuel_enough.
  - intros dy v1 (Hdy & Hs1 & Hv1) Hc. apply Z.ltb_lt in Hc. split; [lia|].
    destruct (forZ_rule
      (fun dx v2 =>
         0 <= dx <= 3 /\ sized bounds v2 /\
         forall x' y', PointIn x' y' bounds = true ->
           (vis v2 x' y' = true <->
            vis v1 x' y' = true \/ (x <= x' < x + dx /\ y' = y + dy)))
      (fun v2 =>
         sized bounds v2 /\
         forall x' y', PointIn x' y' bounds = true ->
           (vis v2 x' y' = true <->
            vis v1 x' y' = true \/ (x <= x' < x + 3 /\ y' = y + dy)))
      (fun dx => dx <? 3) 1
      (fun dx visited =>
         do visited' <- assign visited (getIndex bounds (x + dx) (y + dy)) true;
         Some (Continue visited'))
      3 ltac:(lia)) with (fuel := loopFuel 0 3) (i := 0) (s := v1)
      as (v2 & Hrun & Hs2 & Hv2).
    + intros dx v2 (Hdx & Hs2 & Hv2) Hcx. apply Z.ltb_lt in Hcx. split; [lia|].
      destruct (assign_visited bounds v2 (x + dx) (y + dy) Hs2)
        as (v3 & Ha & Hs3 & Hv3).
      { apply PointIn_iff. lia. }
      rewrite Ha. split; [lia|]. split; [exact Hs3|].
      intros x' y' Hin. rewrite (Hv3 x' y' Hin), (Hv2 x' y' Hin). intuition lia.
    + intros dx v2 (Hdx & Hs2 & Hv2) Hcx. apply Z.ltb_ge in Hcx.
      split; [exact Hs2|].
      intros x' y' Hin. rewrite (Hv2 x' y' Hin). intuition lia.
    + split; [lia|]. split; [exact Hs1|]. intros x' y' Hin. intuition lia.
    + apply loopFuel_enough.
    + rewrite Hrun. split; [lia|]. split; [exact Hs2|].
      intros x' y' Hin. rewrite (Hv2 x' y' Hin), (Hv1 x' y' Hin). intuition lia.
  - intros dy v1 (Hdy & Hs1 & Hv1) Hc. apply Z.ltb_ge in Hc.
    split; [exact Hs1|].
    intros x' y' Hin. rewrite (Hv1 x' y' Hin). intuition lia.
  - split; [lia|]. split; [exact Hs|]. intros x' y' Hin. intuition lia.
Qed.

(** One block of phase 1 keeps the state consistent. *)
Lemma scanBlock_spec (v : list bool) (rects : list rectInfo) (x y : Z) :
  scanState px bounds v rects ->
  X (Min bounds) <= x -> x + 3 <= X (Max bounds) ->
  Y (Min bounds) <= y -> y + 3 <= Y (Max bounds) ->
  exists v' rects',
    FourPhase.scanBlock img bounds x y (v, rects) = Some (Continue (v', rects')) /\
    scanState px bounds v' rects'.
Proof.
  intros Hst Hx0 Hx1 Hy0 Hy1. destruct Hst as [Hs Hvis Hsolid Hdisj].
  unfold FourPhase.scanBlock.
  destruct (isBackground (px x y)) eqn:Hbg.
  { exists v, rects. split; [reflexivity|now constructor]. }
  destruct (isUniform_spec v x y (px x y) Hs) as (u & Hu & Hblock); try lia.
  rewrite Hu. destruct u.
  2:{ exists v, rects. split; [reflexivity|now constructor]. }
  specialize (Hblock eq_refl).
  destruct (markBlock_spec v x y Hs) as (v' & Hmark & Hs' & Hvis'); try lia.
  rewrite Hmark.
  exists v', (rects ++ [rectOf x y 3 3 (px x y)]). split; [reflexivity|].
  constructor.
  - exact Hs'.
  - intros x' y' Hin'. rewrite (Hvis' x' y' Hin'), (Hvis x' y' Hin').
    rewrite <- (covers_rectOf x y 3 3 (px x y)). split.
    + intros [(r & Hr & Hc)|Hc].
      * exists r. split; [apply in_or_app; now left|exact Hc].
      * eexists. split; [apply in_or_app; right; now left|exact Hc].
    + intros (r & Hr & Hc). apply in_app_or in Hr.
      destruct Hr as [Hr|[<-|[]]]; [left; eauto|right; exact Hc].
  - intros r Hr. apply in_app_or in Hr. destruct Hr as [Hr|[<-|[]]]; [auto|].
    apply solidRect_rectOf; try lia; [exact Hbg|].
    intros x' y' Hc. now apply Hblock.
  - apply pairwise_disjoint_snoc; [exact Hdisj|].
    intros r x' y' Hr [Hc1 Hc2]. apply covers_rectOf in Hc2.
    destruct (Hblock x' y' Hc2) as [Hunv _].
    assert (Hin' : PointIn x' y' bounds = true) by (apply PointIn_iff; lia).
    assert (vis v x' y' = true) by (apply Hvis; eauto).
    congruence.
Qed.

Lemma phase1_spec (v : list bool) (rects : list rectInfo) :
  scanState px bounds v rects ->
  exists v' rects',
    FourPhase.phase1 img bounds (v, rects) = Some (v', rects') /\
    scanState px bounds v' rects'.
Proof.
  intros Hst. unfold FourPhase.phase1.
  destruct (forZ_rule
    (fun y (st : list bool * list rectInfo) =>
       Y (Min bounds) <= y /\ scanState px bounds (fst st) (snd st))
    (fun st => scanState px bounds (fst st) (snd st))
    (fun y => y <=? Y (Max bounds) - 3) 3
    (fun y st =>
       do st' <-
         forZ (loopFuel (X (Min bounds)) (X (Max bounds))) (X (Min bounds))
           (fun x => x <=? X (Max bounds) - 3) 3
           (fun x st => FourPhase.scanBlock img bounds x y st) st;
       Some (Continue st'))
    (Y (Max bounds) - 2) ltac:(lia))
    with (fuel := loopFuel (Y (Min bounds)) (Y (Max bounds)))
         (i := Y (Min bounds)) (s := (v, rects))
    as (st & Hrun & Hst').
  - intros y st (Hy & Hst1) Hc. apply Z.leb_le in Hc. split; [lia|].
    destruct (forZ_rule
      (fun x (st : list bool * list rectInfo) =>
         X (Min bounds) <= x /\ scanState px bounds (fst st) (snd st))
      (fun st => scanState px bounds (fst st) (snd st))
      (fun x => x <=? X (Max bounds) - 3) 3
      (fun x st => FourPhase.scanBlock img bounds x y st)
      (X (Max bounds) - 2) ltac:(lia))
      with (fuel := loopFuel (X (Min bounds)) (X (Max bounds)))
           (i := X (Min bounds)) (s := st)
      as (st' & Hrow & Hst2).
    + intros x [v1 rects1] (Hx & Hs1) Hcx. apply Z.leb_le in Hcx.
      split; [lia|]. simpl in Hs1.
      destruct (scanBlock_spec v1 rects1 x y Hs1) as (v2 & rects2 & E & Hs2); try lia.
      rewrite E. simpl. split; [lia|exact Hs2].
    + intros x st1 (Hx & Hs1) _. exact Hs1.
    + split; [lia|exact Hst1].
    + unfold loopFuel. lia.
    + rewrite Hrow. split; [lia|exact Hst2].
  - intros y st (Hy & Hst1) _. exact Hst1.
  - split; [lia|exact Hst].
  - unfold loopFuel. lia.
  - destruct st as [v' rects']. exists v', rects'. split; [exact Hrun|exact Hst'].
Qed.

(** PHASE 2.  The run that [runEnd] measures has the color [p]. *)
Lemma runEnd_spec (v : list bool) (y : Z) (p : Pixel) :
  sized bounds v -> Y (Min bounds) <= y < Y (Max bounds) ->
  forall fuel x,
    X (Min bounds) <= x -> x <= X (Max bounds) ->
    (Z.to_nat (X (Max bounds) - x) < fuel)%nat ->
    exists x',
      FourPhase.runEnd img bounds fuel v y p x = Some x' /\
      x <= x' <= X (Max bounds) /\
      forall x'', x <= x'' < x' -> px x'' y = p.
Proof.
  intros Hs Hy. induction fuel as [|f IH]; intros x Hx0 Hx1 Hfuel; [lia|].
  cbn [FourPhase.runEnd]. destruct (Z.ltb_spec x (X (Max bounds))) as [Hlt|Hge].
  - rewrite (index_visited bounds v _ _ Hs) by (apply PointIn_iff; lia).
    destruct (vis v x y). { exists x. repeat split; try lia; intros; lia. }
    destruct (differs (px x y) p) eqn:Hd. { exists x. repeat split; try lia; intros; lia. }
    apply differs_false in Hd.
    destruct (IH (x + 1)) as (x' & Hrun & Hle & Hcol); try lia.
    exists x'. split; [exact Hrun|]. split; [lia|].
    intros x'' Hx''. destruct (Z.eq_dec x'' x) as [->|]; [exact Hd|apply Hcol; lia].
  - exists x. repeat split; try lia; intros; lia.
Qed.

(** One row of phase 2, over the [visited] slice [v] and the blocks
    [blocks] that phase 1 left: the rectangles stay solid, the blocks
    stay in the list, and the row gets covered. *)
Lemma scanRow_spec (v : list bool) (blocks : list rectInfo) (y : Z) :
  scanState px bounds v blocks -> Y (Min bounds) <= y < Y (Max bounds) ->
  forall fuel x rects,
    X (Min bounds) <= x <= X (Max bounds) ->
    (Z.to_nat (X (Max bounds) - x) < fuel)%nat ->
    (forall r, In r rects -> solidRect px bounds r) ->
    incl blocks rects ->
    coveredBefore px bounds rects x y ->
    exists rects',
      FourPhase.scanRow img bounds fuel v y x rects = Some rects' /\
      (forall r, In r rects' -> solidRect px bounds r) /\
      incl blocks rects' /\
      coveredBefore px bounds rects' (X (Max bounds)) y.
Proof.
  intros [Hs Hvis _ _] Hy.
  induction fuel as [|f IH]; intros x rects Hx Hfuel Hsolid Hincl Hcov; [lia|].
  cbn [FourPhase.scanRow]. destruct (Z.ltb_spec x (X (Max bounds))) as [Hlt|Hge].
  2:{ exists rects. replace (X (Max bounds)) with x by lia. auto. }
  assert (Hin : PointIn x y bounds = true) by (apply PointIn_iff; lia).
  rewrite (index_visited bounds v _ _ Hs Hin).
  destruct (vis v x y) eqn:Hv.
  { apply IH; auto; try lia.
    intros x' y' Hin' Hpos Hfg.
    destruct (Z.eq_dec y' y) as [->|]; [|apply Hcov; auto; lia].
    destruct (Z.eq_dec x' x) as [->|]; [|apply Hcov; auto; lia].
    apply Hvis in Hv; [|exact Hin]. destruct Hv as (r & Hr & Hc).
    exists r. split; [apply Hincl; exact Hr|exact Hc]. }
  destruct (isBackground (px x y)) eqn:Hbg.
  { apply IH; auto; try lia.
    intros x' y' Hin' Hpos Hfg.
    destruct (Z.eq_dec y' y) as [->|]; [|apply Hcov; auto; lia].
    destruct (Z.eq_dec x' x) as [->|]; [congruence|apply Hcov; auto; lia]. }
  destruct (runEnd_spec v y (px x y) Hs Hy (loopFuel x (X (Max bounds))) (x + 1))
    as (x' & Hrun & Hle & Hcol); try lia.
  { unfold loopFuel. lia. }
  rewrite Hrun.
  assert (Hnew : forall x'' y'',
            covers (rectOf x y (x' - x) 1 (px x y)) x'' y'' <->
            x <= x'' < x' /\ y'' = y).
  { intros x'' y''. rewrite covers_rectOf. lia. }
  apply IH; try lia.
  - intros r Hr. apply in_app_or in Hr. destruct Hr as [Hr|[<-|[]]]; [auto|].
    apply solidRect_rectOf; try lia; [exact Hbg|].
    intros x'' y'' [Hx'' Hy'']. replace y'' with y by lia.
    destruct (Z.eq_dec x'' x) as [->|]; [reflexivity|apply Hcol; lia].
  - apply incl_appl. exact Hincl.
  - intros x'' y'' Hin'' Hpos Hfg.
    destruct (Z.eq_dec y'' y) as [->|].
    + destruct (Z_lt_ge_dec x'' x) as [Hb|Hb].
      * destruct (Hcov x'' y Hin'') as (r & Hr & Hc); auto.
        exists r. split; [apply in_or_app; now left|exact Hc].
      * eexists. split; [apply in_or_app; right; now left|]. apply Hnew. lia.
    + destruct (Hcov x'' y'' Hin'') as (r & Hr & Hc); auto; try lia.
      exists r. split; [apply in_or_app; now left|exact Hc].
Qed.

Lemma phase2_spec (v : list bool) (blocks : list rectInfo) :
  wellFormed bounds -> scanState px bounds v blocks ->
  exists rects,
    FourPhase.phase2 img bounds v blocks = Some rects /\
    (forall r, In r rects -> solidRect px bounds r) /\
    coveredBefore px bounds rects (X (Min bounds)) (Y (Max bounds)).
Proof.
  intros [Hwx Hwy] Hst. unfold FourPhase.phase2.
  apply forZ_rule with
    (hi := Y (Max bounds))
    (Inv := fun y rects =>
       Y (Min bounds) <= y <= Y (Max bounds) /\
       (forall r, In r rects -> solidRect px bounds r) /\
       incl blocks rects /\
       coveredBefore px bounds rects (X (Min bounds)) y);
    try lia; try apply loopFuel_enough.
  - intros y rects (Hy & Hsolid & Hincl & Hcov) Hc. apply Z.ltb_lt in Hc.
    split; [lia|].
    destruct (scanRow_spec v blocks y Hst ltac:(lia)
                (loopFuel (X (Min bounds)) (X (Max bounds))) (X (Min bounds)) rects)
      as (rects' & Hrow & Hsolid' & Hincl' & Hcov');
      auto; try lia; try apply loopFuel_enough.
    rewrite Hrow. split; [lia|]. split; [exact Hsolid'|]. split; [exact Hincl'|].
    intros x' y' Hin' Hpos Hfg. apply Hcov'; auto.
    apply PointIn_iff in Hin'. lia.
  - intros y rects (Hy & Hsolid & Hincl & Hcov) Hc. apply Z.ltb_ge in Hc.
    replace (Y (Max bounds)) with y by lia. auto.
  - split; [lia|]. split; [exact (scan_solid _ _ _ _ Hst)|].
    split; [apply incl_refl|].
    intros x' y' Hin' Hpos. apply PointIn_iff in Hin'. lia.
Qed.

End FourPhaseFacts.

(** PHASES 3 and 4.  A merge replaces two rectangles of one color that
    share a whole edge by their union. *)
Lemma sameColor_true (a b : rectInfo) :
  FourPhase.sameColor a b = true -> rectColor a = rectColor b.
Proof.
  unfold FourPhase.sameColor, rectColor.
  rewrite !andb_true_iff, !Z.eqb_eq. intros [[[-> ->] ->] ->]. reflexivity.
Qed.

Lemma sameColorMap_app (l1 l1' l2 l2' : list rectInfo) :
  sameColorMap l1 l1' -> sameColorMap l2 l2' -> sameColorMap (l1 ++ l2) (l1' ++ l2').
Proof.
  intros H1 H2 x y c. rewrite !colored_app, (H1 x y c), (H2 x y c). tauto.
Qed.

Lemma mergeHorzStep_keeps : keepsColorMap FourPhase.mergeHorzStep.
Proof.
  intros merged curr next Hm [Hcw Hch] [Hnw Hnh].
  unfold FourPhase.mergeHorzStep.
  destruct (_ && _) eqn:E; simpl.
  - apply andb_true_iff in E. destruct E as [E Hcol].
    apply sameColor_true in Hcol.
    rewrite !andb_true_iff, !Z.eqb_eq in E. destruct E as [[Ey Eh] Ex].
    split; [|split; [exact Hm|split; simpl; lia]].
    apply sameColorMap_app; [apply sameColorMap_refl|].
    intros x y c. rewrite (colored_app [curr] [next]), !colored_single.
    unfold covers, rectColor in *. simpl. rewrite <- Hcol. split.
    + intros [[Hx Hy] Hc'].
      destruct (Z_lt_ge_dec x (rect_x curr + rect_width curr)); [left|right];
        (split; [lia|exact Hc']).
    + intros [[[Hx Hy] Hc']|[[Hx Hy] Hc']]; (split; [lia|exact Hc']).
  - split; [|split; [|now split]].
    + rewrite <- app_assoc. apply sameColorMap_refl.
    + apply Forall_app. split; [exact Hm|]. constructor; [now split|constructor].
Qed.

Lemma mergeVertStep_keeps : keepsColorMap FourPhase.mergeVertStep.
Proof.
  intros merged curr next Hm [Hcw Hch] [Hnw Hnh].
  unfold FourPhase.mergeVertStep.
  destruct (_ && _) eqn:E; simpl.
  - apply andb_true_iff in E. destruct E as [E Hcol].
    apply sameColor_true in Hcol.
    rewrite !andb_true_iff, !Z.eqb_eq in E. destruct E as [[Ex Ew] Ey].
    split; [|split; [exact Hm|split; simpl; lia]].
    apply sameColorMap_app; [apply sameColorMap_refl|].
    intros x y c. rewrite (colored_app [curr] [next]), !colored_single.
    unfold covers, rectColor in *. simpl. rewrite <- Hcol. split.
    + intros [[Hx Hy] Hc'].
      destruct (Z_lt_ge_dec y (rect_y curr + rect_height curr)); [left|right];
        (split; [lia|exact Hc']).
    + intros [[[Hx Hy] Hc']|[[Hx Hy] Hc']]; (split; [lia|exact Hc']).
  - split; [|split; [|now split]].
    + rewrite <- app_assoc. apply sameColorMap_refl.
    + apply Forall_app. split; [exact Hm|]. constructor; [now split|constructor].
Qed.

Lemma merge_fold_keeps
  (step : list rectInfo * rectInfo -> rectInfo -> list rectInfo * rectInfo) :
  keepsColorMap step ->
  forall rest merged curr,
    Forall properRect merged -> properRect curr -> Forall properRect rest ->
    sameColorMap (fst (fold_left step rest (merged, curr)) ++
                  [snd (fold_left step rest (merged, curr))])
                 (merged ++ [curr] ++ rest) /\
    Forall properRect (fst (fold_left step rest (merged, curr))) /\
    properRect (snd (fold_left step rest (merged, curr))).
Proof.
  intros Hstep. induction rest as [|next rest IH]; intros merged curr Hm Hc Hr.
  - simpl. split; [apply sameColorMap_refl|]. now split.
  - inversion Hr as [|? ? Hn Hr']; subst. simpl fold_left.
    destruct (Hstep merged curr next Hm Hc Hn) as (Hmap & Hm1 & Hc1).
    destruct (step (merged, curr) next) as [m1 c1] eqn:E. simpl in Hmap, Hm1, Hc1.
    destruct (IH m1 c1 Hm1 Hc1 Hr') as (Hmap' & Hm' & Hc').
    split; [|now split].
    eapply sameColorMap_trans; [exact Hmap'|].
    change (merged ++ [curr] ++ next :: rest)
      with (merged ++ [curr] ++ [next] ++ rest).
    rewrite !app_assoc. apply sameColorMap_app; [|apply sameColorMap_refl].
    rewrite <- app_assoc. exact Hmap.
Qed.

Lemma mergeLoop_keeps
  (step : list rectInfo * rectInfo -> rectInfo -> list rectInfo * rectInfo)
  (s : list rectInfo) :
  keepsColorMap step -> s <> [] -> Forall properRect s ->
  exists out,
    FourPhase.mergeLoop step s = Some out /\
    sameColorMap out s /\ Forall properRect out /\ out <> [].
Proof.
  intros Hstep Hne Hs. destruct s as [|first rest]; [congruence|].
  inversion Hs as [|? ? Hf Hr]; subst. unfold FourPhase.mergeLoop.
  destruct (merge_fold_keeps step Hstep rest [] first (Forall_nil _) Hf Hr)
    as (Hmap & Hm & Hc).
  destruct (fold_left step rest ([], first)) as [merged curr]. simpl in *.
  exists (merged ++ [curr]). split; [reflexivity|]. split; [exact Hmap|].
  split.
  - apply Forall_app. split; [exact Hm|]. constructor; [exact Hc|constructor].
  - intros E. apply app_eq_nil in E. destruct E as [_ E]. discriminate.
Qed.

Lemma scanState_init (px : Z -> Z -> Pixel) (bounds : Rectangle) :
  wellFormed bounds ->
  scanState px bounds (repeat false (Z.to_nat (Dx bounds * Dy bounds))) [].
Proof.
  intros [Hwx Hwy].
  assert (Hnn : 0 <= Dx bounds * Dy bounds) by (unfold Dx, Dy; nia).
  constructor.
  - unfold sized. rewrite repeat_length. lia.
  - intros x y _. unfold visitedAt. rewrite nth_repeat.
    split; [discriminate|]. now intros (r & [] & _).
  - intros r [].
  - intros [|i] j r1 r2 Hi; discriminate.
Qed.

(** The color map of the result of the four phases: the image itself,
    away from the background; whatever permutation the sort returns. *)
Lemma oldOptimizeRectangles_colored
  (sortSlice : (rectInfo -> rectInfo -> bool) -> list rectInfo -> list rectInfo)
  (img : Image) (bounds : Rectangle) :
  (forall less l, Permutation (sortSlice less l) l) ->
  wellFormed bounds ->
  exists olds,
    FourPhase.oldOptimizeRectangles sortSlice img bounds = Some olds /\
    forall x y c,
      colored olds x y c <->
      (PointIn x y bounds = true /\ isBackground (At8 img x y) = false /\
       At8 img x y = c).
Proof.
  intros Hperm Hwf. unfold FourPhase.oldOptimizeRectangles, make_bools.
  assert (Hnn : 0 <= Dx bounds * Dy bounds)
    by (destruct Hwf; unfold Dx, Dy; nia).
  destruct (Z.ltb_spec (Dx bounds * Dy bounds) 0) as [|_]; [lia|].
  destruct (phase1_spec img bounds _ _ (scanState_init (At8 img) bounds Hwf))
    as (v & blocks & H1 & Hst).
  rewrite H1.
  destruct (phase2_spec img bounds v blocks Hwf Hst) as (rects & H2 & Hsolid & Hcov).
  rewrite H2.
  pose proof (solid_cover_colored (At8 img) bounds rects Hsolid Hcov) as Hmap.
  destruct (Z.eqb_spec (Z.of_nat (length rects)) 0) as [|Hlen].
  { exists rects. split; [reflexivity|exact Hmap]. }
  assert (Hproper : Forall properRect rects).
  { apply Forall_forall. intros r Hr. destruct (Hsolid r Hr). now split. }
  destruct (mergeLoop_keeps FourPhase.mergeHorzStep (sortSlice FourPhase.lessYX rects)
              mergeHorzStep_keeps)
    as (mh & H3 & Hmap3 & Hproper3 & Hne3).
  { intros E. pose proof (Permutation_length (Hperm FourPhase.lessYX rects)) as HL.
    rewrite E in HL. simpl in HL. lia. }
  { eapply Permutation_Forall; [apply Permutation_sym, Hperm|exact Hproper]. }
  rewrite H3.
  assert (Hne4 : sortSlice FourPhase.lessXY mh <> []).
  { intros E. pose proof (Permutation_length (Hperm FourPhase.lessXY mh)) as HL.
    rewrite E in HL. destruct mh; [congruence|simpl in HL; lia]. }
  destruct (Z.ltb_spec 0 (Z.of_nat (length (sortSlice FourPhase.lessXY mh))))
    as [_|Hz].
  2:{ destruct (sortSlice FourPhase.lessXY mh); [congruence|simpl in Hz; lia]. }
  destruct (mergeLoop_keeps FourPhase.mergeVertStep (sortSlice FourPhase.lessXY mh)
              mergeVertStep_keeps Hne4)
    as (final & H4 & Hmap4 & _ & _).
  { eapply Permutation_Forall; [apply Permutation_sym, Hperm|exact Hproper3]. }
  exists final. split; [exact H4|].
  intros x y c. rewrite <- (Hmap x y c).
  rewrite (Hmap4 x y c).
  rewrite (sameColorMap_Permutation _ _ (Hperm FourPhase.lessXY mh) x y c).
  rewrite (Hmap3 x y c).
  apply (sameColorMap_Permutation _ _ (Hperm FourPhase.lessYX rects)).
Qed.

Lemma insertionSort_Permutation (less : rectInfo -> rectInfo -> bool)
  (l : list rectInfo) : Permutation (insertionSort less l) l.
Proof.
  assert (Hins : forall a t, Permutation (insertSorted less a t) (a :: t)).
  { intros a t. induction t as [|b t IH]; simpl; [apply Permutation_refl|].
    destruct (less b a); [|apply Permutation_refl].
    eapply Permutation_trans; [apply perm_skip, IH|apply perm_swap]. }
  induction l as [|a l IH]; simpl; [constructor|].
  eapply Permutation_trans; [apply Hins|]. now apply perm_skip.
Qed.

End FourPhaseFacts.
(** C1. For every raster image as the standard library builds it, read
    over its own bounds or over well-formed bounds inside them, the
    greedy-meshing [optimizeRectangles] returns a list of rectangles that
    are pairwise disjoint; every pixel inside a returned rectangle has, in
    the image ([img.At(x, y)] reduced to four bytes), exactly the
    rectangle's recorded color (alpha included); the union of the
    rectangles is exactly the set of pixels of the bounds whose color in
    the image is not background ([a = 0] or [r = g = b = 255]); and
    re-painting the rectangles onto a blank canvas gives back the image on
    every pixel of the bounds that is not background. *)
Theorem optimizeRectangles_decomposition (img : Image) (bounds : Rectangle) :
  wellFormedImage img -> wellFormed bounds ->
  (forall x y, PointIn x y bounds = true -> PointIn x y (Bounds img) = true) ->
  exists rects,
    Greedy.optimizeRectangles img bounds = Some rects /\
    pairwise_disjoint rects /\
    (forall r x y, In r rects -> covers r x y -> At8 img x y = rectColor r) /\
    (forall x y,
       (exists r, In r rects /\ covers r x y) <->
       (PointIn x y bounds = true /\ isBackground (At8 img x y) = false)) /\
    (forall x y,
       PointIn x y bounds = true -> isBackground (At8 img x y) = false ->
       repaint rects x y = At8 img x y).
Proof.
  intros Himg Hwf Hsub.
  assert (Hpx : forall x y, PointIn x y bounds = true ->
            Greedy.getPixel img x y = Some (At8 img x y)).
  { intros x y Hin. exact (getPixel_At8 img x y Himg (Hsub x y Hin)). }
  destruct (GreedyFacts.optimizeRectangles_scan img bounds (At8 img) Hpx Hwf)
    as (v & rects & Hrun & [Hs Hvis Hsolid Hdisj] & Hall).
  exists rects. split; [exact Hrun|]. split; [exact Hdisj|].
  assert (Hinside : forall r x y, In r rects -> covers r x y ->
            PointIn x y bounds = true).
  { intros r x y Hr Hc. destruct (Hsolid r Hr). unfold covers in Hc.
    apply PointIn_iff. lia. }
  assert (Hcolor : forall r x y, In r rects -> covers r x y ->
            At8 img x y = rectColor r).
  { intros r x y Hr Hc. exact (solid_color _ _ _ (Hsolid r Hr) x y Hc). }
  assert (Hcover : forall x y,
            (exists r, In r rects /\ covers r x y) <->
            (PointIn x y bounds = true /\ isBackground (At8 img x y) = false)).
  { intros x y. split.
    - intros (r & Hr & Hc). split; [exact (Hinside r x y Hr Hc)|].
      rewrite (Hcolor r x y Hr Hc).
      exact (solid_foreground _ _ _ (Hsolid r Hr)).
    - intros (Hin & Hfg). apply Hvis; [exact Hin|].
      apply Hall; auto. apply PointIn_iff in Hin. lia. }
  split; [exact Hcolor|]. split; [exact Hcover|].
  intros x y Hin Hfg. unfold repaint. apply paint_covered.
  - apply Hcover. split; [exact Hin|exact Hfg].
  - intros r Hr Hc. symmetry. exact (Hcolor r x y Hr Hc).
Qed.

Lemma optimizeRectangles_decomposition_witness :
  wellFormedImage sampleRGBA /\ wellFormed (Bounds sampleRGBA) /\
  (forall x y, PointIn x y (Bounds sampleRGBA) = true ->
     PointIn x y (Bounds sampleRGBA) = true) /\
  exists rects,
    Greedy.optimizeRectangles sampleRGBA (Bounds sampleRGBA) = Some rects /\
    pairwise_disjoint rects /\
    (forall r x y, In r rects -> covers r x y ->
       At8 sampleRGBA x y = rectColor r) /\
    (forall x y,
       (exists r, In r rects /\ covers r x y) <->
       (PointIn x y (Bounds sampleRGBA) = true /\
        isBackground (At8 sampleRGBA x y) = false)) /\
    (forall x y,
       PointIn x y (Bounds sampleRGBA) = true ->
       isBackground (At8 sampleRGBA x y) = false ->
       repaint rects x y = At8 sampleRGBA x y).
Proof.
  assert (H : wellFormed (Bounds sampleRGBA)) by (split; simpl; lia).
  assert (I : wellFormedImage sampleRGBA).
  { split; [exact H|]. split.
    - intros x y Hin. apply PointIn_iff in Hin. simpl in *. lia.
    - simpl. repeat constructor; lia. }
  split; [exact I|]. split; [exact H|]. split; [exact (fun x y Hin => Hin)|].
  exact (optimizeRectangles_decomposition sampleRGBA (Bounds sampleRGBA) I H
           (fun x y Hin => Hin)).
Defined.

(** The color map of the greedy result: the image itself, away from the
    background. *)
Lemma optimizeRectangles_colored (img : Image) (bounds : Rectangle)
  (px : Z -> Z -> Pixel) :
  (forall x y, PointIn x y bounds = true -> Greedy.getPixel img x y = Some (px x y)) ->
  wellFormed bounds ->
  exists rects,
    Greedy.optimizeRectangles img bounds = Some rects /\
    forall x y c,
      colored rects x y c <->
      (PointIn x y bounds = true /\ isBackground (px x y) = false /\ px x y = c).
Proof.
  intros Hpx Hwf.
  destruct (GreedyFacts.optimizeRectangles_scan img bounds px Hpx Hwf)
    as (v & rects & Hrun & [Hs Hvis Hsolid Hdisj] & Hall).
  exists rects. split; [exact Hrun|].
  apply solid_cover_colored; [exact Hsolid|].
  intros x y Hin Hpos Hfg. apply Hvis; auto.
Qed.

(** C2. For every raster image, the greedy [optimizeRectangles] and the
    four-phase [oldOptimizeRectangles] (run with any sort that returns a
    permutation of its input) both return, and they induce the same color
    map: a pixel is covered by a rectangle of color [c] of one result
    exactly when it is covered by a rectangle of color [c] of the other;
    the two lists may differ. *)
Theorem optimizeRectangles_same_color_map
  (sortSlice : (rectInfo -> rectInfo -> bool) -> list rectInfo -> list rectInfo)
  (img : Image) :
  (forall less l, Permutation (sortSlice less l) l) ->
  wellFormedImage img ->
  exists rects olds,
    Greedy.optimizeRectangles img (Bounds img) = Some rects /\
    FourPhase.oldOptimizeRectangles sortSlice img (Bounds img) = Some olds /\
    forall x y c, colored rects x y c <-> colored olds x y c.
Proof.
  intros Hperm Himg. pose proof Himg as [Hwf _].
  destruct (optimizeRectangles_colored img (Bounds img) (At8 img)
              (fun x y => getPixel_At8 img x y Himg) Hwf) as (rects & Hg & Hgm).
  destruct (FourPhaseFacts.oldOptimizeRectangles_colored sortSlice img (Bounds img)
              Hperm Hwf) as (olds & Ho & Hom).
  exists rects, olds. split; [exact Hg|]. split; [exact Ho|].
  intros x y c. rewrite (Hgm x y c), (Hom x y c). reflexivity.
Qed.

Lemma optimizeRectangles_same_color_map_witness :
  (forall less l, Permutation (insertionSort less l) l) /\
  wellFormedImage sampleRGBA /\
  exists rects olds,
    Greedy.optimizeRectangles sampleRGBA (Bounds sampleRGBA) = Some rects /\
    FourPhase.oldOptimizeRectangles insertionSort sampleRGBA (Bounds sampleRGBA)
      = Some olds /\
    forall x y c, colored rects x y c <-> colored olds x y c.
Proof.
  assert (H : wellFormedImage sampleRGBA).
  { split; [split; simpl; lia|]. split.
    - intros x y Hin. apply PointIn_iff in Hin. simpl in *. lia.
    - simpl. repeat constructor; lia. }
  split; [exact FourPhaseFacts.insertionSort_Permutation|]. split; [exact H|].
  exact (optimizeRectangles_same_color_map insertionSort sampleRGBA
           FourPhaseFacts.insertionSort_Permutation H).
Defined.
(** ** The SVG path recorder *)

Module SvgPathRecorderFacts.
Import SvgPathRecorder.
Open Scope string_scope.

Lemma append_assoc (a b c : string) : (a ++ b) ++ c = a ++ (b ++ c).
Proof. induction a as [|ch a IH]; simpl; [reflexivity|now rewrite IH]. Qed.

Lemma append_empty_r (a : string) : a ++ "" = a.
Proof. induction a as [|ch a IH]; simpl; [reflexivity|now rewrite IH]. Qed.

(** Joining with the empty separator, one element appended. *)
Lemma Join_appendTo (l : list string) (e : string) :
  Join (appendTo l e) "" = Join l "" ++ e.
Proof.
  unfold Join, appendTo. induction l as [|x l IH]; [reflexivity|].
  destruct l as [|y l].
  - simpl. reflexivity.
  - change (String.concat "" ((x :: y :: l) ++ [e])%list)
      with (x ++ "" ++ String.concat "" ((y :: l) ++ [e])%list).
    rewrite IH.
    change (String.concat "" (x :: y :: l))
      with (x ++ "" ++ String.concat "" (y :: l)).
    simpl. now rewrite append_assoc.
Qed.

Lemma pending_length (l : list string) :
  l <> nil -> (0 <? Z.of_nat (List.length l))%Z = true.
Proof. destruct l; [congruence|]. intros _. simpl. reflexivity. Qed.

(** The element that [generateSVGPathElement] builds for a fill. *)
Lemma generateSVGPathElement_fill (r : svgPathRecorder) (pathData colorStr : string) :
  generateSVGPathElement r pathData "fill" colorStr
  = Pending.fillElement pathData (fillRule r) colorStr.
Proof.
  unfold generateSVGPathElement, Pending.fillElement, appendTo, Join. cbv zeta.
  change (String.eqb "fill" "fill") with true. cbv iota.
  destruct (String.eqb (fillRule r) ""), (String.eqb colorStr ""); simpl;
    rewrite ?append_assoc; simpl; rewrite ?append_assoc; reflexivity.
Qed.

(** What [toSVGPath] returns when path commands are pending: the
    elements committed so far, then the pending commands as one filled
    element. *)
Lemma toSVGPath_pending (r : svgPathRecorder) :
  currentCommands r <> nil ->
  fst (toSVGPath r)
  = Join (pathElements r) "" ++
    Pending.fillElement (Join (currentCommands r) " ") (fillRule r)
      (if hasGradient r then "" else colorToHex (currentColor r)).
Proof.
  intros Hpending. unfold toSVGPath, Fill. cbv zeta.
  rewrite (pending_length _ Hpending). simpl.
  rewrite generateSVGPathElement_fill, <- Join_appendTo. unfold appendTo.
  destruct (hasGradient r); simpl; destruct (pathElements r); reflexivity.
Qed.

(** One call, seen on the command buffer, the fill rule, the color and
    the gradient flag of the recorder. *)
Lemma call_fields (r : svgPathRecorder) (c : GraphicsContext.Call) :
  currentCommands (call r c)
  = (if Pending.commits c then nil
     else (currentCommands r ++ Pending.pathText c)%list) /\
  fillRule (call r c) = Pending.fillRuleAfter (fillRule r) (c :: nil) /\
  currentColor (call r c) = Pending.colorAfter (currentColor r) (c :: nil) /\
  hasGradient (call r c) = hasGradient r.
Proof.
  destruct c;
    try (cbn -[fmt_2f]; rewrite ?app_nil_r; repeat split; reflexivity).
  - destruct r as [pe [|e l] cx cy sd sw sl fr col hg];
      repeat split; reflexivity.
  - destruct r as [pe [|e l] cx cy sd sw sl fr col hg];
      repeat split; reflexivity.
Qed.

(** The recorder after the calls of a shape holds, as pending commands,
    the path data of the calls made since the last commit, and the fill
    rule and the color that the calls have set. *)
Lemma calls_fields (calls : list GraphicsContext.Call) (r : svgPathRecorder) :
  currentCommands (fold_left call calls r)
  = Pending.pendingAfter (currentCommands r) calls /\
  fillRule (fold_left call calls r) = Pending.fillRuleAfter (fillRule r) calls /\
  currentColor (fold_left call calls r) = Pending.colorAfter (currentColor r) calls /\
  hasGradient (fold_left call calls r) = hasGradient r.
Proof.
  revert r. induction calls as [|c calls IH]; intros r.
  - repeat split; reflexivity.
  - destruct (call_fields r c) as (Hc & Hf & Hk & Hg).
    destruct (IH (call r c)) as (IHc & IHf & IHk & IHg).
    cbn [fold_left]. rewrite IHc, IHf, IHk, IHg, Hc, Hf, Hk, Hg.
    repeat split; reflexivity.
Qed.

(** Without a commit, no element is added. *)
Lemma calls_no_commit (calls : list GraphicsContext.Call) (r : svgPathRecorder) :
  Pending.neverCommits calls = true ->
  pathElements (fold_left call calls r) = pathElements r.
Proof.
  revert r. induction calls as [|c calls IH]; intros r H; [reflexivity|].
  unfold Pending.neverCommits in H. cbn [forallb] in H.
  apply andb_true_iff in H as [Hc H].
  cbn [fold_left]. rewrite (IH _ H).
  destruct c; try reflexivity; discriminate Hc.
Qed.

(** [svgPathShape]: the recorder's output for the calls of the shape. *)
Lemma svgPathShape_GenerateSVGPath (shape : IShape) (ctx : DrawContext)
  (hasGradient : bool) :
  svgPathShape.GenerateSVGPath shape ctx hasGradient
  = GenerateSVGPath (IShape_Draw shape ctx) hasGradient.
Proof. destruct ctx. reflexivity. Qed.

Lemma svgPathShape_GenerateSVGFinder (shape : IShape) (ctx : DrawContext)
  (hasGradient : bool) :
  svgPathShape.GenerateSVGFinder shape ctx hasGradient
  = GenerateSVGPath (IShape_DrawFinder shape ctx) hasGradient.
Proof. destruct ctx. reflexivity. Qed.

(** The output of the recorder for a list of calls that leaves path
    commands pending. *)
Lemma GenerateSVGPath_pending (draw : list GraphicsContext.Call) (g : bool) :
  Pending.pendingAfter nil draw <> nil ->
  GenerateSVGPath draw g
  = Join (pathElements (fold_left call draw (NewSVGPathRecorder g))) "" ++
    Pending.fillElement (Join (Pending.pendingAfter nil draw) " ")
      (Pending.fillRuleAfter "" draw)
      (if g then "" else colorToHex (Pending.colorAfter None draw)).
Proof.
  intros Hpending. unfold GenerateSVGPath. cbv zeta.
  destruct (calls_fields draw (NewSVGPathRecorder g)) as (Hc & Hf & Hk & Hg).
  cbn [NewSVGPathRecorder currentCommands fillRule currentColor hasGradient]
    in Hc, Hf, Hk, Hg.
  rewrite toSVGPath_pending by (rewrite Hc; exact Hpending).
  now rewrite Hc, Hf, Hk, Hg.
Qed.

End SvgPathRecorderFacts.

(** C3, as stated, fails: after the [Fill] that commits a shape drawn
    with the even-odd rule, the recorder's fill rule is still "evenodd",
    and the next shape committed through the same recorder carries it. *)
Lemma Fill_keeps_fill_rule :
  let r := fold_left SvgPathRecorder.call evenOddSquare
             (SvgPathRecorder.NewSVGPathRecorder false) in
  ~ (SvgPathRecorder.strokeDash r = [] /\
     SvgPathRecorder.strokeWidth r = 0%Q /\
     SvgPathRecorder.strokeLineCap r = ""%string /\
     SvgPathRecorder.fillRule r = ""%string) /\
  SvgPathRecorder.fillRule r = "evenodd"%string /\
  fst (SvgPathRecorder.toSVGPath (fold_left SvgPathRecorder.call openTriangle r))
  = ("<path d=" ++ dq ++ "M0.00 0.00 L10.00 0.00 L10.00 10.00 L0.00 10.00 Z" ++ dq
     ++ " fill-rule=" ++ dq ++ "evenodd" ++ dq
     ++ " fill=" ++ dq ++ "#ff0000" ++ dq ++ "/>"
     ++ "<path d=" ++ dq ++ "M0.00 0.00 L10.00 0.00 L5.00 8.50 Z" ++ dq
     ++ " fill-rule=" ++ dq ++ "evenodd" ++ dq
     ++ " fill=" ++ dq ++ "#0000ff" ++ dq ++ "/>")%string.
Proof.
  cbv zeta. split; [|split]; [|reflexivity|vm_compute; reflexivity].
  intros (_ & _ & _ & H). vm_compute in H. discriminate H.
Qed.

(** C3, amended.  Every [Fill] and every [Stroke] is a commit point: the
    pending path commands, if any, become one path element and the
    command buffer is emptied; after it the stroke attributes (dash
    pattern, line width, line cap) have their default values.  The fill
    rule is not reset: it stays as it was last set. *)
Theorem commit_resets_stroke_attributes (r : SvgPathRecorder.svgPathRecorder) :
  (SvgPathRecorder.strokeDash (SvgPathRecorder.Fill r) = [] /\
   SvgPathRecorder.strokeWidth (SvgPathRecorder.Fill r) = 0%Q /\
   SvgPathRecorder.strokeLineCap (SvgPathRecorder.Fill r) = ""%string /\
   SvgPathRecorder.currentCommands (SvgPathRecorder.Fill r) = [] /\
   SvgPathRecorder.fillRule (SvgPathRecorder.Fill r) = SvgPathRecorder.fillRule r) /\
  (SvgPathRecorder.strokeDash (SvgPathRecorder.Stroke r) = [] /\
   SvgPathRecorder.strokeWidth (SvgPathRecorder.Stroke r) = 0%Q /\
   SvgPathRecorder.strokeLineCap (SvgPathRecorder.Stroke r) = ""%string /\
   SvgPathRecorder.currentCommands (SvgPathRecorder.Stroke r) = [] /\
   SvgPathRecorder.fillRule (SvgPathRecorder.Stroke r) = SvgPathRecorder.fillRule r).
Proof.
  unfold SvgPathRecorder.Fill, SvgPathRecorder.Stroke. cbv zeta.
  destruct (SvgPathRecorder.currentCommands r) as [|c l] eqn:E; simpl.
  - rewrite E. repeat split; reflexivity.
  - repeat split; reflexivity.
Qed.

(** C10. For every shape rendered through the SVG path recorder (its
    [Draw] by [GenerateSVGPath], its [DrawFinder] by [GenerateSVGFinder]):
    when the calls of the shape leave path commands pending, that is when
    a path-building call comes after the last [Fill] or [Stroke],
    [toSVGPath] commits them, and the markup returned is the elements
    that the shape's own commits produced followed by one filled path
    element, [<path d=... fill-rule=... fill=.../>], whose path data is
    the pending commands joined by spaces, with the fill rule and the
    color that the shape has set (no color under a gradient).  For a shape
    that never calls [Fill] or [Stroke] this element is the whole
    output. *)
Theorem toSVGPath_commits_pending (shape : IShape) (ctx : DrawContext)
  (hasGradient finder : bool) :
  let draw := if finder then IShape_DrawFinder shape ctx else IShape_Draw shape ctx in
  let pending := Pending.pendingAfter [] draw in
  pending <> [] ->
  let committed :=
    SvgPathRecorder.pathElements
      (fold_left SvgPathRecorder.call draw
         (SvgPathRecorder.NewSVGPathRecorder hasGradient)) in
  let element :=
    Pending.fillElement (Join pending " ") (Pending.fillRuleAfter "" draw)
      (if hasGradient then ""%string
       else colorToHex (Pending.colorAfter None draw)) in
  (if finder then svgPathShape.GenerateSVGFinder shape ctx hasGradient
   else svgPathShape.GenerateSVGPath shape ctx hasGradient)
  = (Join committed "" ++ element)%string /\
  (Pending.neverCommits draw = true -> committed = []).
Proof.
  cbv zeta. intros Hpending. split.
  - destruct finder.
    + rewrite SvgPathRecorderFacts.svgPathShape_GenerateSVGFinder.
      now apply SvgPathRecorderFacts.GenerateSVGPath_pending.
    + rewrite SvgPathRecorderFacts.svgPathShape_GenerateSVGPath.
      now apply SvgPathRecorderFacts.GenerateSVGPath_pending.
  - intros Hnever.
    now rewrite SvgPathRecorderFacts.calls_no_commit by exact Hnever.
Qed.

Lemma toSVGPath_commits_pending_witness :
  let shape := customShape (fun _ => openTriangle) (fun _ => openTriangle) in
  let ctx := mkDrawContext 0 0 10 10 (Some blue) 0 in
  Pending.pendingAfter [] (IShape_Draw shape ctx)
  = ["M0.00 0.00"; "L10.00 0.00"; "L5.00 8.50"; "Z"]%string /\
  Pending.pendingAfter [] (IShape_Draw shape ctx) <> [] /\
  svgPathShape.GenerateSVGPath shape ctx false
  = ("<path d=" ++ dq ++ "M0.00 0.00 L10.00 0.00 L5.00 8.50 Z" ++ dq
     ++ " fill=" ++ dq ++ "#0000ff" ++ dq ++ "/>")%string.
Proof.
  cbv zeta.
  assert (H : Pending.pendingAfter []
                (IShape_Draw (customShape (fun _ => openTriangle)
                                (fun _ => openTriangle))
                   (mkDrawContext 0 0 10 10 (Some blue) 0)) <> [])
    by (vm_compute; discriminate).
  split; [vm_compute; reflexivity|]. split; [exact H|].
  destruct (toSVGPath_commits_pending
              (customShape (fun _ => openTriangle) (fun _ => openTriangle))
              (mkDrawContext 0 0 10 10 (Some blue) 0) false false H)
    as [Hout _].
  rewrite Hout. vm_compute. reflexivity.
Defined.

(** C5.  The claim: for the angle 0 the end points of the gradient line
    are [(centerX - W/2, centerY)] and [(centerX + W/2, centerY)], for
    both gradient writers and whatever the size of the canvas.
    [writeSvgoGradient] misses it: on a 600 by 600 canvas and for the
    angle 0, where [math.Cos] gives 1 and [math.Sin] gives 0 and every
    value of the computation is an integer that [float64] holds exactly,
    [writeSVGGradient] writes the line (0, 300) - (600, 300), as claimed,
    and [writeSvgoGradient] passes (0, 255) - (255, 255): it converts the
    coordinates to [int] and clamps them to [0, 255]. *)
Theorem writeSvgoGradient_clamped (math_Cos math_Sin : Q -> Q) :
  (forall q, (q == 0)%Q -> math_Cos q = 1%Q) ->
  (forall q, (q == 0)%Q -> math_Sin q = 0%Q) ->
  let gradient := Gradient.mkLinearGradient 0 [] in
  Gradient.writeSVGGradient math_Cos math_Sin gradient "qrGradient" 600 600
  = ("<defs><linearGradient id=" ++ dq ++ "qrGradient" ++ dq
     ++ " gradientUnits=" ++ dq ++ "userSpaceOnUse" ++ dq
     ++ " x1=" ++ dq ++ "0.000" ++ dq ++ " y1=" ++ dq ++ "300.000" ++ dq
     ++ " x2=" ++ dq ++ "600.000" ++ dq ++ " y2=" ++ dq ++ "300.000" ++ dq
     ++ ">\n</linearGradient></defs>\n")%string /\
  Gradient.writeSvgoGradient math_Cos math_Sin gradient 600 600
  = (0, 255, 255, 255) /\
  (0, 255, 255, 255) <> (300 - 600 / 2, 300, 300 + 600 / 2, 300).
Proof.
  intros Hcos Hsin. cbv zeta.
  assert (H0 : (0 * Gradient.math_Pi / 180 == 0)%Q) by reflexivity.
  unfold Gradient.writeSVGGradient, Gradient.writeSvgoGradient,
    Gradient.gradientAxis.
  cbn [Gradient.Angle Gradient.Stops].
  rewrite (Hcos _ H0), (Hsin _ H0).
  split; [vm_compute; reflexivity|].
  split; [vm_compute; reflexivity|].
  intros H. vm_compute in H. discriminate H.
Qed.

Lemma writeSvgoGradient_clamped_witness :
  (forall q, (q == 0)%Q -> (fun _ : Q => 1%Q) q = 1%Q) /\
  (forall q, (q == 0)%Q -> (fun _ : Q => 0%Q) q = 0%Q) /\
  Gradient.writeSvgoGradient (fun _ => 1%Q) (fun _ => 0%Q)
    (Gradient.mkLinearGradient 0 []) 600 600
  = (0, 255, 255, 255).
Proof.
  split; [intros q _; reflexivity|]. split; [intros q _; reflexivity|].
  exact (proj1 (proj2 (writeSvgoGradient_clamped (fun _ => 1%Q) (fun _ => 0%Q)
                         (fun q _ => eq_refl) (fun q _ => eq_refl)))).
Defined.

(** ** imgkit *)

Module imgkitFacts.

Lemma SetGray_inside (g : image_Gray) (x y v : Z) :
  PointIn x y (GrayRect g) = true ->
  GrayRect (SetGray g x y v) = GrayRect g /\
  forall x' y',
    GrayY (SetGray g x y v) x' y'
    = if (x' =? x) && (y' =? y) then v else GrayY g x' y'.
Proof. intros Hin. unfold SetGray. rewrite Hin. simpl. auto. Qed.

(** A loop nest [for i < height { for j < width { gray = f(gray, j, i) } }]
    over an image whose bounds start at the origin, where the body
    replaces the pixel [(j, i)] by [new j i], a function of the pixel's
    old value: afterwards every pixel of the bounds has its new value. *)
Lemma pixel_loops (bounds : Rectangle) (old new : Z -> Z -> Z)
  (body : Z -> Z -> image_Gray -> option (ctl image_Gray)) (g0 : image_Gray) :
  Min bounds = mkPoint 0 0 -> wellFormed bounds ->
  GrayRect g0 = bounds ->
  (forall x y, PointIn x y bounds = true -> GrayY g0 x y = old x y) ->
  (forall i j g, PointIn j i bounds = true -> GrayRect g = bounds ->
     GrayY g j i = old j i ->
     exists v, body i j g = Some (Continue (SetGray g j i v)) /\ v = new j i) ->
  exists g,
    forZ (loopFuel 0 (Y (Max bounds) - Y (Min bounds))) 0
      (fun i => i <? Y (Max bounds) - Y (Min bounds)) 1
      (fun i gray =>
         do gray' <-
           forZ (loopFuel 0 (X (Max bounds) - X (Min bounds))) 0
             (fun j => j <? X (Max bounds) - X (Min bounds)) 1
             (fun j gray => body i j gray) gray;
         Some (Continue gray'))
      g0 = Some g /\
    GrayRect g = bounds /\
    forall x y, PointIn x y bounds = true -> GrayY g x y = new x y.
Proof.
  intros Hmin [Hwx Hwy] Hrect Hold Hbody.
  rewrite Hmin in *. simpl X in *. simpl Y in *. rewrite !Z.sub_0_r.
  set (W := X (Max bounds)) in *. set (H := Y (Max bounds)) in *.
  assert (Hin : forall x y, PointIn x y bounds = true <-> 0 <= x < W /\ 0 <= y < H).
  { intros x y. rewrite PointIn_iff, Hmin. simpl. reflexivity. }
  apply forZ_rule with
    (hi := H)
    (Inv := fun i g =>
       0 <= i <= H /\ GrayRect g = bounds /\
       forall x y, PointIn x y bounds = true ->
         GrayY g x y = if y <? i then new x y else old x y);
    try lia; try apply loopFuel_enough.
  - intros i g (Hi & Hr & Hg) Hc. apply Z.ltb_lt in Hc. split; [lia|].
    destruct (forZ_rule
      (fun j g' =>
         0 <= j <= W /\ GrayRect g' = bounds /\
         forall x y, PointIn x y bounds = true ->
           GrayY g' x y
           = if (y <? i) || ((y =? i) && (x <? j)) then new x y else old x y)
      (fun g' =>
         GrayRect g' = bounds /\
         forall x y, PointIn x y bounds = true ->
           GrayY g' x y = if y <? i + 1 then new x y else old x y)
      (fun j => j <? W) 1 (fun j gray => body i j gray) W ltac:(lia))
      with (fuel := loopFuel 0 W) (i := 0) (s := g)
      as (g' & Hrun & Hr' & Hg').
    + intros j g' (Hj & Hr' & Hg') Hcj. apply Z.ltb_lt in Hcj. split; [lia|].
      assert (Hji : PointIn j i bounds = true) by (apply Hin; lia).
      destruct (Hbody i j g' Hji Hr') as (v & Hb & ->).
      { rewrite (Hg' j i Hji).
        destruct (Z.ltb_spec i i); [lia|]. destruct (Z.ltb_spec j j); [lia|].
        now rewrite andb_false_r. }
      rewrite Hb.
      destruct (SetGray_inside g' j i (new j i)) as [Hr2 Hg2]; [now rewrite Hr'|].
      split; [lia|]. split; [congruence|].
      intros x y Hxy. rewrite Hg2, (Hg' x y Hxy).
      destruct (Z.eqb_spec x j) as [->|], (Z.eqb_spec y i) as [->|]; simpl;
        repeat match goal with
               | |- context [?a <? ?b] => destruct (Z.ltb_spec a b); try lia
               end; simpl; try reflexivity.
    + intros j g' (Hj & Hr' & Hg') Hcj. apply Z.ltb_ge in Hcj.
      split; [exact Hr'|]. intros x y Hxy. rewrite (Hg' x y Hxy).
      apply Hin in Hxy.
      destruct (Z.eqb_spec y i) as [->|];
        repeat match goal with
               | |- context [?a <? ?b] => destruct (Z.ltb_spec a b); try lia
               end; simpl; try reflexivity.
    + split; [lia|]. split; [exact Hr|]. intros x y Hxy. rewrite (Hg x y Hxy).
      destruct (Z.ltb_spec x 0); [apply Hin in Hxy; lia|].
      now rewrite andb_false_r, orb_false_r.
    + apply loopFuel_enough.
    + rewrite Hrun. split; [lia|]. split; assumption.
  - intros i g (Hi & Hr & Hg) Hc. apply Z.ltb_ge in Hc. split; [exact Hr|].
    intros x y Hxy. rewrite (Hg x y Hxy). apply Hin in Hxy.
    destruct (Z.ltb_spec y i); [reflexivity|lia].
  - split; [lia|]. split; [exact Hrect|]. intros x y Hxy.
    destruct (Z.ltb_spec y 0); [apply Hin in Hxy; lia|]. now apply Hold.
Qed.

(** On an image whose bounds start at the origin, [Gray] gives every
    pixel the luminance of the source pixel. *)
Lemma Gray_origin (src : Image) :
  Min (Bounds src) = mkPoint 0 0 -> wellFormed (Bounds src) ->
  exists g,
    imgkit.Gray src = Some g /\ GrayRect g = Bounds src /\
    forall x y, PointIn x y (Bounds src) = true ->
      GrayY g x y = imgkit.GrayModel_Convert (At16 src x y).
Proof.
  intros Hmin Hwf. unfold imgkit.Gray. cbv zeta.
  apply (pixel_loops (Bounds src) (fun _ _ => 0)
           (fun x y => imgkit.GrayModel_Convert (At16 src x y))
           (fun i j gray =>
              Some (Continue (SetGray gray j i
                      (imgkit.GrayModel_Convert (At16 src j i))))));
    auto.
  intros i j g _ _ _. eexists. split; reflexivity.
Qed.

(** On an image whose bounds start at the origin, the binarization is
    what the specification says: same bounds, and a pixel is white (255)
    when its luminance is strictly above the threshold, black (0)
    otherwise. *)
Lemma Binaryzation_origin (src : Image) (threshold : Z) :
  Min (Bounds src) = mkPoint 0 0 -> wellFormed (Bounds src) ->
  0 <= threshold <= 255 ->
  exists g,
    imgkit.Binaryzation src threshold false = Some (GrayImage g) /\
    GrayRect g = Bounds src /\
    forall x y, PointIn x y (Bounds src) = true ->
      GrayAt g x y
      = if imgkit.GrayModel_Convert (At16 src x y) >? threshold then 255 else 0.
Proof.
  intros Hmin Hwf Ht. unfold imgkit.Binaryzation. cbv zeta.
  destruct (Z.ltb_spec threshold 0); [lia|].
  destruct (Z.gtb_spec threshold 255); [lia|]. simpl orb. cbv iota.
  destruct (Gray_origin src Hmin Hwf) as (g0 & Hgray & Hr0 & Hg0).
  rewrite Hgray.
  destruct (pixel_loops (Bounds src)
              (fun x y => imgkit.GrayModel_Convert (At16 src x y))
              (fun x y =>
                 if imgkit.GrayModel_Convert (At16 src x y) >? threshold
                 then 255 else 0)
              (fun i j gray =>
                 if GrayAt gray j i >? threshold
                 then Some (Continue (SetGray gray j i 255))
                 else Some (Continue (SetGray gray j i 0)))
              g0 Hmin Hwf Hr0 Hg0) as (g & Hrun & Hr & Hg).
  { intros i j g Hin Hrect Hval. unfold GrayAt. rewrite Hrect, Hin, Hval.
    destruct (_ >? threshold); eexists; split; reflexivity. }
  rewrite Hrun. exists g. split; [reflexivity|]. split; [exact Hr|].
  intros x y Hin. unfold GrayAt. rewrite Hr, Hin. now apply Hg.
Qed.

(** The element at the place [i * n + k] of a concatenation of chunks of
    [n] elements each. *)
Lemma nth_flat_map_chunks {A B : Type} (f : A -> list B) (n : nat) (l : list A)
  (i k : nat) (d : B) (a0 : A) :
  (forall a, List.length (f a) = n) -> (i < List.length l)%nat -> (k < n)%nat ->
  nth (i * n + k) (flat_map f l) d = nth k (f (nth i l a0)) d.
Proof.
  intros Hn. revert i. induction l as [|a l IH]; intros i Hi Hk; simpl in Hi; [lia|].
  simpl flat_map. destruct i as [|i].
  - simpl. apply app_nth1. rewrite Hn. exact Hk.
  - rewrite app_nth2 by (rewrite Hn; simpl; lia).
    rewrite Hn. replace (Datatypes.S i * n + k - n)%nat with (i * n + k)%nat
      by (simpl; lia).
    simpl nth. apply IH; lia.
Qed.

Lemma flat_map_chunks_length {A B : Type} (f : A -> list B) (n : nat) (l : list A) :
  (forall a, List.length (f a) = n) ->
  List.length (flat_map f l) = (List.length l * n)%nat.
Proof.
  intros Hn. induction l as [|a l IH]; simpl; [reflexivity|].
  now rewrite length_app, Hn, IH.
Qed.

Lemma uint8_byte (v : Z) : 0 <= uint8 v < 256.
Proof. unfold uint8. apply Z.mod_pos_bound. lia. Qed.

(** The copy that [NewRGBA] and [draw.Draw] make holds, inside the
    bounds, the pixels of the source. *)
Lemma copyRGBA_At8 (src : Image) (b : Rectangle) (x y : Z) :
  PointIn x y b = true -> At8 (imgkit.copyRGBA src b) x y = At8 src x y.
Proof.
  intros Hin.
  pose (rangeZ := fun lo hi : Z =>
          map (fun k => lo + Z.of_nat k) (seq 0 (Z.to_nat (hi - lo)))).
  pose (pixel := fun y x : Z => let '(r, g, b0, a) := At8 src x y in [r; g; b0; a]).
  pose (row := fun y : Z => flat_map (pixel y) (rangeZ (X (Min b)) (X (Max b)))).
  pose (Pix := flat_map row (rangeZ (Y (Min b)) (Y (Max b)))).
  change (imgkit.copyRGBA src b) with (RGBAImage Pix (4 * Dx b) b).
  pose proof Hin as Hxy. apply PointIn_iff in Hxy.
  assert (Hpl : forall y' x', List.length (pixel y' x') = 4%nat).
  { intros y' x'. unfold pixel. destruct (At8 src x' y') as [[[? ?] ?] ?]. reflexivity. }
  assert (Hrl : forall lo hi, List.length (rangeZ lo hi) = Z.to_nat (hi - lo)).
  { intros lo hi. unfold rangeZ. now rewrite length_map, length_seq. }
  assert (Hrn : forall lo hi i, (i < Z.to_nat (hi - lo))%nat ->
            nth i (rangeZ lo hi) 0 = lo + Z.of_nat i).
  { intros lo hi i Hi. unfold rangeZ.
    set (f := fun k : nat => lo + Z.of_nat k).
    rewrite (nth_indep _ 0 (f 0%nat))
      by (rewrite length_map, length_seq; exact Hi).
    rewrite map_nth, seq_nth by exact Hi. reflexivity. }
  assert (Hrowl : forall y', List.length (row y') = (Z.to_nat (Dx b) * 4)%nat).
  { intros y'. unfold row. rewrite (flat_map_chunks_length _ 4%nat) by apply Hpl.
    rewrite Hrl. reflexivity. }
  set (base := (y - Y (Min b)) * (4 * Dx b) + (x - X (Min b)) * 4).
  assert (Hpix : forall c, 0 <= c < 4 ->
            pix Pix (base + c) = nth (Z.to_nat c) (pixel y x) 0).
  { intros c Hc. unfold pix, Pix, base.
    replace (Z.to_nat ((y - Y (Min b)) * (4 * Dx b) + (x - X (Min b)) * 4 + c))
      with (Z.to_nat (y - Y (Min b)) * (Z.to_nat (Dx b) * 4)
            + (Z.to_nat (x - X (Min b)) * 4 + Z.to_nat c))%nat
      by (unfold Dx; nia).
    rewrite (nth_flat_map_chunks row _ _ _ _ 0 0 Hrowl);
      [|rewrite Hrl; lia|unfold Dx; nia].
    rewrite Hrn by lia. unfold row.
    rewrite (nth_flat_map_chunks (pixel _) 4%nat _ _ _ 0 0 (Hpl _));
      [|rewrite Hrl; lia|lia].
    rewrite Hrn by lia.
    repeat f_equal; lia. }
  assert (Hbyte : forall c, 0 <= c < 4 -> 0 <= pix Pix (base + c) < 256).
  { intros c Hc. rewrite (Hpix c Hc). unfold pixel, At8.
    assert (Hcases : c = 0 \/ c = 1 \/ c = 2 \/ c = 3) by lia.
    destruct Hcases as [-> | [-> | [-> | ->]]]; simpl; apply uint8_byte. }
  unfold At8 at 1. unfold At16. rewrite Hin. cbv zeta. fold base.
  cbn [c16_r c16_g c16_b c16_a].
  replace base with (base + 0) at 1 by lia.
  rewrite !widen_byte by (apply Hbyte; lia).
  rewrite !Hpix by lia. unfold pixel, At8. reflexivity.
Qed.

(** With the flag set, [Binaryzation] returns a copy: the same bounds and,
    inside them, the same pixels (as [uint8] channels of the RGBA model). *)
Lemma Binaryzation_copy (src : Image) (threshold : Z) :
  exists dst,
    imgkit.Binaryzation src threshold true = Some dst /\
    Bounds dst = Bounds src /\
    forall x y, PointIn x y (Bounds src) = true -> At8 dst x y = At8 src x y.
Proof.
  exists (imgkit.copyRGBA src (Bounds src)).
  split; [reflexivity|]. split; [reflexivity|].
  intros x y. apply copyRGBA_At8.
Qed.

End imgkitFacts.

(** ** The encoders and the shapes *)

Module EncoderFacts.

(** Two nested loops over [0, 1, 2] whose body writes at most one
    element write at most nine. *)
Lemma nine_cells {A : Type} (cell : Z -> Z -> list A) :
  (forall i j, (List.length (cell i j) <= 1)%nat) ->
  (List.length (flat_map (fun i => flat_map (fun j => cell i j) range3) range3)
   <= 9)%nat.
Proof.
  intros Hcell. unfold range3. simpl. rewrite !length_app. simpl.
  pose proof (Hcell 0 0). pose proof (Hcell 0 1). pose proof (Hcell 0 2).
  pose proof (Hcell 1 0). pose proof (Hcell 1 1). pose proof (Hcell 1 2).
  pose proof (Hcell 2 0). pose proof (Hcell 2 1). pose proof (Hcell 2 2).
  lia.
Qed.

Lemma svg_halftoneCell_length (pkg : Package) (opts : outputImageOptions)
  (halftone : Image) (x y blockX blockY : Z) (drawCtx : DrawContext)
  (moduleColor : Color16) (i j : Z) :
  (List.length (svgEncoder.halftoneCell pkg opts halftone x y blockX blockY
                  drawCtx moduleColor i j) <= 1)%nat.
Proof.
  unfold svgEncoder.halftoneCell. cbv zeta.
  match goal with |- context [if ?c then _ else _] => destruct c end; simpl; lia.
Qed.

Lemma svgo_halftoneCell_length (pkg : Package) (opts : outputImageOptions)
  (halftone : Image) (x y blockX blockY : Z) (v : QRValue) (i j : Z) :
  (List.length (SvgoEncoder.halftoneCell pkg opts halftone x y blockX blockY v i j)
   <= 1)%nat.
Proof.
  unfold SvgoEncoder.halftoneCell. cbv zeta.
  destruct ((i =? 1) && (j =? 1)); [simpl; lia|].
  match goal with |- context [if ?c then _ else _] => destruct c end; simpl; lia.
Qed.

(** The canvas sizes that the two encoders declare, with the border
    array read as [top, right, bottom, left]. *)
Lemma canvas_sizes (pkg : Package) (opts : outputImageOptions) (mat : Matrix)
  (top right bottom left : Z) :
  borderWidths opts = (top, right, bottom, left) ->
  svgEncoder.width pkg opts mat = Width mat * qrBlockWidth pkg opts + top + right /\
  svgEncoder.height pkg opts mat = Height mat * qrBlockWidth pkg opts + bottom + left /\
  SvgoEncoder.width pkg opts mat = Width mat * qrBlockWidth pkg opts + left + right /\
  SvgoEncoder.height pkg opts mat = Height mat * qrBlockWidth pkg opts + top + bottom.
Proof.
  intros E.
  unfold svgEncoder.width, svgEncoder.height, SvgoEncoder.width, SvgoEncoder.height,
    SvgoEncoder.cols, SvgoEncoder.rows.
  rewrite E. simpl. auto.
Qed.

(** [WithBorderWidth] with four values stores them as
    [top, right, bottom, left]. *)
Lemma WithBorderWidth_four (d top right bottom left : Z) (oo : outputImageOptions) :
  borderWidths (WithBorderWidth d [top; right; bottom; left] oo)
  = (top, right, bottom, left).
Proof. reflexivity. Qed.

(** The smaller of the two truncated halves is the truncated half of the
    smaller edge. *)
Lemma min_quot_2 (w h : Z) :
  (if h ÷ 2 <=? w ÷ 2 then h ÷ 2 else w ÷ 2) = Z.min w h ÷ 2.
Proof.
  destruct (Z.leb_spec (h ÷ 2) (w ÷ 2)) as [Hle|Hgt].
  - destruct (Z.le_ge_cases w h) as [Hwh|Hhw].
    + rewrite Z.min_l by exact Hwh.
      pose proof (Z.quot_le_mono w h 2 ltac:(lia) Hwh). lia.
    + now rewrite Z.min_r by exact Hhw.
  - destruct (Z.le_ge_cases w h) as [Hwh|Hhw].
    + now rewrite Z.min_l by exact Hwh.
    + pose proof (Z.quot_le_mono h w 2 ltac:(lia) Hhw). lia.
Qed.

(** An unset module in the rendering pass of the current
    [svgEncoder.EncodeMatrix]: no output, except the halftone rendering of
    a DATA module outside the logo zone when a halftone source is
    configured. *)
Lemma svgEncoder_unset_module (pkg : Package) (opts : outputImageOptions)
  (mat : Matrix) (halftone : Image) (x y : Z) (v : QRValue) :
  IsSet v = false ->
  svgEncoder.renderModule pkg opts mat halftone x y v
  = (if negb (svgEncoder.inLogoZone pkg opts mat x y)
        && svgEncoder.hasHalftone opts && QRType_eqb (Type_ v) QRType_DATA
     then svgEncoder.halftoneCells pkg opts halftone x y
            (x * qrBlockWidth pkg opts + at4 (borderWidths opts) 3)
            (y * qrBlockWidth pkg opts + at4 (borderWidths opts) 0)
            (mkDrawContext
               (float64 (x * qrBlockWidth pkg opts + at4 (borderWidths opts) 3))
               (float64 (y * qrBlockWidth pkg opts + at4 (borderWidths opts) 0))
               (qrBlockWidth pkg opts) (qrBlockWidth pkg opts)
               (Some (translateToRGBA pkg opts v))
               (getNeighbours pkg (svgEncoder.bitmap pkg opts mat) x y))
            (translateToRGBA pkg opts v)
     else []).
Proof.
  intros Hunset. unfold svgEncoder.renderModule. rewrite Hunset.
  destruct (svgEncoder.inLogoZone pkg opts mat x y); [reflexivity|].
  simpl negb. rewrite andb_true_l. cbv zeta.
  destruct (svgEncoder.hasHalftone opts && QRType_eqb (Type_ v) QRType_DATA);
    reflexivity.
Qed.

(** An unset module in [SvgoEncoder.EncodeMatrix] and in the earlier
    revision of [svgEncoder.EncodeMatrix]: never any output. *)
Lemma SvgoEncoder_unset_module (pkg : Package) (opts : outputImageOptions)
  (mat : Matrix) (halftone : Image) (x y : Z) (v : QRValue) :
  IsSet v = false ->
  SvgoEncoder.renderModule pkg opts mat halftone x y v = [] /\
  legacySvgEncoder.renderModule pkg opts mat halftone x y v = [].
Proof.
  intros Hunset.
  unfold SvgoEncoder.renderModule, legacySvgEncoder.renderModule.
  rewrite Hunset. split; reflexivity.
Qed.

(** What [circle.Draw] emits, for every context: one circle centered on
    the cell, whose radius is the half of the smaller edge truncated to
    an integer, then the color and the fill. *)
Lemma circle_Draw_commands (c : DrawContext) :
  circle.Draw c
  = [GraphicsContext.DrawCircle
       (ctx_x c + float64 (ctx_w c) / 2)%Q (ctx_y c + float64 (ctx_h c) / 2)%Q
       (float64 (Z.min (ctx_w c) (ctx_h c) ÷ 2));
     GraphicsContext.SetColor (ctx_color c);
     GraphicsContext.Fill].
Proof.
  unfold circle.Draw. cbv zeta. now rewrite min_quot_2.
Qed.

End EncoderFacts.

(** C4. The claim: the canvas is [cols * blockWidth + left + right] wide
    and [rows * blockWidth + top + bottom] high, for borders stored as
    [top, right, bottom, left].  [svgEncoder.EncodeMatrix] misses it: with
    the borders [WithBorderWidth(10, 20, 30, 40)], a 21x21 matrix and a
    block width of 9 it declares 219 by 259 ([top + right] and
    [bottom + left] added), where the claim, and [SvgoEncoder.EncodeMatrix],
    give 249 by 229. *)
Theorem svgEncoder_canvas_mixes_borders :
  borderWidths sampleOptions = (10, 20, 30, 40) /\
  qrBlockWidth samplePackage sampleOptions = 9 /\
  (svgEncoder.width samplePackage sampleOptions sampleMatrix,
   svgEncoder.height samplePackage sampleOptions sampleMatrix)
  = (21 * 9 + 10 + 20, 21 * 9 + 30 + 40) /\
  (svgEncoder.width samplePackage sampleOptions sampleMatrix,
   svgEncoder.height samplePackage sampleOptions sampleMatrix)
  <> (21 * 9 + 40 + 20, 21 * 9 + 10 + 30) /\
  (SvgoEncoder.width samplePackage sampleOptions sampleMatrix,
   SvgoEncoder.height samplePackage sampleOptions sampleMatrix)
  = (21 * 9 + 40 + 20, 21 * 9 + 10 + 30).
Proof.
  repeat split; try reflexivity.
  intros H. vm_compute in H. discriminate H.
Qed.

(** C6.  The claim: with a halftone source configured, a DATA module
    gets the halftone rendering of its 3x3 sub-cells even when it is
    unset.  [SvgoEncoder.EncodeMatrix] misses it, and so does the earlier
    revision of [svgEncoder.EncodeMatrix]: their callbacks return for an
    unset module before they look at the halftone.  For the unset DATA
    module at (0, 1), whose halftone cells are black in the left column
    and white elsewhere, both write nothing, where the current
    [svgEncoder.EncodeMatrix] writes the three black sub-cells, as
    claimed. *)
Theorem SvgoEncoder_skips_unset_halftone :
  let v := mkQRValue QRType_DATA false in
  let cell (x y : string) :=
    ("<g fill=" ++ dq ++ "#000000" ++ dq ++ "><rect x=" ++ dq ++ x ++ dq
     ++ " y=" ++ dq ++ y ++ dq ++ " width=" ++ dq ++ "3.00" ++ dq
     ++ " height=" ++ dq ++ "3.00" ++ dq ++ "/></g>\n")%string in
  halftoneImg sampleOptions = Some sampleHalftone /\
  SvgoEncoder.renderModule samplePackage sampleOptions sampleMatrix sampleHalftone 0 1 v
  = [] /\
  legacySvgEncoder.renderModule samplePackage sampleOptions sampleMatrix
    sampleHalftone 0 1 v
  = [] /\
  svgEncoder.renderModule samplePackage sampleOptions sampleMatrix sampleHalftone 0 1 v
  = [cell "40.00" "19.00"; cell "40.00" "22.00"; cell "40.00" "25.00"]%string.
Proof. cbv zeta. repeat split; vm_compute; reflexivity. Qed.

(** C7, as stated, fails: with an all-white halftone image, a set DATA
    module rendered by [svgEncoder.EncodeMatrix] produces one sub-cell
    draw call, not nine; the white samples are passed over. *)
Lemma halftone_white_samples_skipped :
  svgEncoder.hasHalftone sampleOptions = true /\
  List.length
    (svgEncoder.renderModule samplePackage sampleOptions sampleMatrix whiteHalftone
       0 0 (mkQRValue QRType_DATA true)) = 1%nat /\
  1%nat <> 9%nat.
Proof.
  split; [reflexivity|]. split; [vm_compute; reflexivity|discriminate].
Qed.

(** C7, amended.  When a halftone source is configured, a DATA module
    outside the logo zone (and, in [SvgoEncoder], set) is rendered by the
    two halftone loops over the 3x3 subdivision, [i] outside and [j]
    inside; the output is, in this order, one draw call for each
    sub-cell whose color is not passed over, so at most nine.  The color
    of the center sub-cell (i = 1, j = 1) is the module's resolved QR
    color, whatever the halftone sample; the color of another sub-cell is
    the halftone sample at (3x + i, 3y + j).  [svgEncoder] writes for a
    sub-cell the element [<g fill=color>shape</g>], and passes over a
    sub-cell whose color is transparent or pure white, the center
    included.  [SvgoEncoder] draws a block filled with the color (the
    center with the gradient reference when a gradient is configured); it
    always draws the center and passes over another sub-cell whose sample
    has alpha 0. *)
Theorem halftone_subcells (pkg : Package) (opts : outputImageOptions)
  (mat : Matrix) (halftone : Image) (x y : Z) (v : QRValue) :
  Type_ v = QRType_DATA ->
  let blockWidth := qrBlockWidth pkg opts in
  let moduleColor := translateToRGBA pkg opts v in
  let blockX := x * blockWidth + at4 (borderWidths opts) 3 in
  let blockY := y * blockWidth + at4 (borderWidths opts) 0 in
  let halftoneW := (float64 blockWidth / 3)%Q in
  let sample (i j : Z) :=
    halftoneColor pkg halftone (bgTransparent opts) (x * 3 + i) (y * 3 + j) in
  let subColor (i j : Z) :=
    if (i =? 1) && (j =? 1) then moduleColor else sample i j in
  let element (i j : Z) :=
    ("<g fill=" ++ dq ++ hexOf (subColor i j) ++ dq ++ ">"
     ++ GenerateSVGPath (getSVGShape (getShape pkg opts))
          (mkDrawContext (float64 blockX + float64 i * halftoneW)%Q
             (float64 blockY + float64 j * halftoneW)%Q
             (int halftoneW) (int halftoneW) (Some (subColor i j))
             (getNeighbours pkg (svgEncoder.bitmap pkg opts mat) x y))
          false
     ++ "</g>\n")%string in
  let cell (i j : Z) :=
    if isBackground (RGBAModel_Convert (subColor i j)) then [] else [element i j] in
  let block (i j : Z) :=
    mkSvgoBlock
      (mkDrawContext (float64 (blockX + int (float64 i * halftoneW)))
         (float64 (blockY + int (float64 j * halftoneW)))
         (int halftoneW) (int halftoneW) (Some color_Black) 0)
      (getShape pkg opts) QRType_DATA
      (if (i =? 1) && (j =? 1)
       then match qrGradient opts with
            | Some _ => "url(#qrGradient)"%string
            | None => hexOf moduleColor
            end
       else hexOf (sample i j)) in
  let svgoCell (i j : Z) :=
    if (i =? 1) && (j =? 1) then [block i j]
    else if c16_a (sample i j) =? 0 then [] else [block i j] in
  (halftoneImg opts <> None ->
   svgEncoder.inLogoZone pkg opts mat x y = false ->
   svgEncoder.renderModule pkg opts mat halftone x y v
   = flat_map (fun i => flat_map (fun j => cell i j) [0; 1; 2]) [0; 1; 2] /\
   (List.length (svgEncoder.renderModule pkg opts mat halftone x y v) <= 9)%nat /\
   (isBackground (RGBAModel_Convert moduleColor) = false ->
    In (element 1 1) (svgEncoder.renderModule pkg opts mat halftone x y v))) /\
  (halftoneImg opts <> None ->
   IsSet v = true ->
   SvgoEncoder.inLogoZone pkg opts mat blockX blockY = false ->
   SvgoEncoder.renderModule pkg opts mat halftone x y v
   = flat_map (fun i => flat_map (fun j => svgoCell i j) [0; 1; 2]) [0; 1; 2] /\
   (List.length (SvgoEncoder.renderModule pkg opts mat halftone x y v) <= 9)%nat /\
   In (block 1 1) (SvgoEncoder.renderModule pkg opts mat halftone x y v)).
Proof.
  intros Hdata. cbv zeta. split.
  - intros Hh Hlogo.
    assert (Hh' : svgEncoder.hasHalftone opts = true).
    { unfold svgEncoder.hasHalftone. destruct (halftoneImg opts); congruence. }
    match goal with
    | |- ?L = ?R /\ _ => assert (E : L = R)
    end.
    { unfold svgEncoder.renderModule. rewrite Hlogo, Hh', Hdata. reflexivity. }
    split; [exact E|]. split.
    + rewrite E. apply (EncoderFacts.nine_cells
        (fun i j => if isBackground _ then [] else [_])).
      intros i j. destruct (isBackground _); simpl; lia.
    + intros Hfg. rewrite E. cbn [flat_map Z.eqb Pos.eqb andb].
      rewrite Hfg. rewrite !in_app_iff.
      right. left. right. left. left. reflexivity.
  - intros Hh Hset Hlogo.
    assert (Hh' : SvgoEncoder.hasHalftone opts = true).
    { unfold SvgoEncoder.hasHalftone. destruct (halftoneImg opts); congruence. }
    match goal with
    | |- ?L = ?R /\ _ => assert (E : L = R)
    end.
    { unfold SvgoEncoder.renderModule. rewrite Hset, Hlogo, Hh', Hdata.
      cbn [negb QRType_eqb andb].
      unfold SvgoEncoder.halftoneCells, SvgoEncoder.halftoneCell,
        SvgoEncoder.hasGradient, SvgoEncoder.halftoneW, range3.
      cbn [flat_map Z.eqb Pos.eqb andb].
      destruct (qrGradient opts); reflexivity. }
    split; [exact E|]. split.
    + rewrite E. apply (EncoderFacts.nine_cells
        (fun i j => if (i =? 1) && (j =? 1) then [_]
                    else if _ =? 0 then [] else [_])).
      intros i j. destruct ((i =? 1) && (j =? 1)); [simpl; lia|].
      destruct (_ =? 0); simpl; lia.
    + rewrite E. cbn [flat_map Z.eqb Pos.eqb andb].
      rewrite !in_app_iff.
      right. left. right. left. left. reflexivity.
Qed.

Lemma halftone_subcells_witness :
  let v := mkQRValue QRType_DATA true in
  let cell (x y : string) :=
    ("<g fill=" ++ dq ++ "#000000" ++ dq ++ "><rect x=" ++ dq ++ x ++ dq
     ++ " y=" ++ dq ++ y ++ dq ++ " width=" ++ dq ++ "3.00" ++ dq
     ++ " height=" ++ dq ++ "3.00" ++ dq ++ "/></g>\n")%string in
  Type_ v = QRType_DATA /\
  halftoneImg sampleOptions <> None /\
  svgEncoder.inLogoZone samplePackage sampleOptions sampleMatrix 0 0 = false /\
  svgEncoder.renderModule samplePackage sampleOptions sampleMatrix sampleHalftone
    0 0 v
  = [cell "40.00" "10.00"; cell "40.00" "13.00"; cell "40.00" "16.00";
     cell "43.00" "13.00"]%string.
Proof.
  cbv zeta.
  assert (Hh : halftoneImg sampleOptions <> None) by discriminate.
  destruct (halftone_subcells samplePackage sampleOptions sampleMatrix sampleHalftone
              0 0 (mkQRValue QRType_DATA true) eq_refl) as [Hsvg _].
  split; [reflexivity|]. split; [exact Hh|]. split; [reflexivity|].
  rewrite (proj1 (Hsvg Hh eq_refl)). vm_compute. reflexivity.
Defined.

(** C8.  The claim: the radius of the circle is half of the smaller of
    [w] and [h].  [circle.Draw] misses it for a cell with an odd edge: it
    divides the two [int] edges by 2, so for the 5 by 5 cell at the origin
    it emits a circle of radius 2 around the center (2.5, 2.5), which the
    recorder writes with the radius 2.00; [svgCircle.GenerateSVGPath], the
    SVG counterpart of the same shape, divides in [float64] and writes the
    radius 2.50 for the same cell. *)
Theorem circle_radius_truncated :
  let ctx := mkDrawContext 0 0 5 5 (Some red) 0 in
  circle.Draw ctx
  = [GraphicsContext.DrawCircle (0 + float64 5 / 2) (0 + float64 5 / 2) (float64 2);
     GraphicsContext.SetColor (Some red);
     GraphicsContext.Fill] /\
  ~ (float64 2 == float64 (Z.min 5 5) / 2)%Q /\
  SvgPathRecorder.GenerateSVGPath (circle.Draw ctx) false
  = ("<path d=" ++ dq
     ++ "M4.50 2.50 A2.00 2.00 0 1 1 0.50 2.50 A2.00 2.00 0 1 1 4.50 2.50 Z"
     ++ dq ++ " fill=" ++ dq ++ "#ff0000" ++ dq ++ "/>")%string /\
  svgCircle.GenerateSVGPath ctx false
  = ("<circle cx=" ++ dq ++ "2.50" ++ dq ++ " cy=" ++ dq ++ "2.50" ++ dq
     ++ " r=" ++ dq ++ "2.50" ++ dq ++ "/>")%string.
Proof.
  cbv zeta. split; [reflexivity|]. split.
  - intros H. vm_compute in H. discriminate H.
  - split; vm_compute; reflexivity.
Qed.

(** C9. The claim: with the flag false, a pixel of the output is white
    exactly when its grayscale value is strictly above the threshold.
    [Binaryzation] misses it on an image whose bounds do not start at the
    origin: its loops count from 0 and not from [bounds.Min].  For the
    white 1x1 image at (1, 1) and the threshold 100 the output has the
    same bounds, but its pixel (1, 1) is black (0) although the grayscale
    value of the source pixel is 255; the same pixel at the origin comes
    out white. *)
Theorem Binaryzation_ignores_origin :
  (exists g,
     imgkit.Binaryzation whiteAt11 100 false = Some (GrayImage g) /\
     GrayRect g = Bounds whiteAt11 /\
     imgkit.GrayModel_Convert (At16 whiteAt11 1 1) = 255 /\
     GrayAt g 1 1 = 0) /\
  (exists g,
     imgkit.Binaryzation whiteAt00 100 false = Some (GrayImage g) /\
     imgkit.GrayModel_Convert (At16 whiteAt00 0 0) = 255 /\
     GrayAt g 0 0 = 255).
Proof.
  split.
  - eexists. split; [vm_compute; reflexivity|]. repeat split.
  - eexists. split; [vm_compute; reflexivity|]. repeat split.
Qed.
